(** * Fairy-Stockfish variant registry: [src/variant.cpp]

    A shallow embedding of [Variant::conclude], [VariantMap::add] and
    [VariantMap::parse_istream], and the properties the specification
    states about them; then the rest of the file (the predefined
    variants, [VariantMap::init], [parse], [clear_all] and [get_keys])
    and further properties of the code.

    Conventions.
    - [int] values are kept in [Z] and every [int] expression is wrapped
      to 32 bits with [int]; bit sets ([PieceSet], [Bitboard]) are [N].
    - The header files ([types.h], [bitboard.h], [variant.h], [parser.h])
      are not part of the verified source. The constants, the square and
      piece helpers and the attribute applier they declare are the
      members of the classes [Types] and [Parser], so every statement
      holds for every choice of them; the four helpers on piece sets
      have their usual meaning, written out under "Bit-set primitives".
    - [VariantMap] is the [std::map] from names to rulesets that the calls
      of the file ([find], [insert], [erase], [operator[]]) show, and
      [parse_istream] runs on the global registry [variants], the one
      [VariantMap] of the program. *)

From Stdlib Require Import ZArith NArith Ascii String Lia Bool List.
From stdpp Require Import gmap strings list list_numbers sorting.

Local Open Scope Z_scope.

(** ** Basic types *)

Inductive Color := WHITE | BLACK.

(** [operator~] on a [Color]. *)
Definition flip (c : Color) : Color :=
  match c with WHITE => BLACK | BLACK => WHITE end.

Inductive Direction :=
  | NORTH | EAST | SOUTH | WEST
  | NORTH_EAST | SOUTH_EAST | SOUTH_WEST | NORTH_WEST.

Definition PieceType := N.
Definition PieceSet := N.
Definition Piece := N.
Definition Bitboard := N.
Definition Square := Z.
Definition Value := Z.

(** An array indexed by [Color], as in [T x[COLOR_NB]]. *)
Record PerColor (A : Type) := ByColor { of_white : A; of_black : A }.
Arguments ByColor {A} _ _.
Arguments of_white {A} _.
Arguments of_black {A} _.

Definition sel {A} (p : PerColor A) (c : Color) : A :=
  match c with WHITE => of_white p | BLACK => of_black p end.

Definition upd {A} (p : PerColor A) (c : Color) (x : A) : PerColor A :=
  match c with
  | WHITE => ByColor x (of_black p)
  | BLACK => ByColor (of_white p) x
  end.

(** ** 32-bit [int] arithmetic *)

Definition int (z : Z) : Z := (z + 2 ^ 31) mod 2 ^ 32 - 2 ^ 31.

(** ** The ruleset record

    Only the members that [conclude] reads or writes are kept. Tables
    ([int t[N]]) are finite maps from the index to the stored value, an
    absent key being a cell that was never written. *)

Record Variant := {
  (* raw fields *)
  maxRank : Z;
  maxFile : Z;
  pieceTypes : PieceSet;
  pieceToChar : string;
  pieceToCharSynonyms : string;
  startFen : string;
  mobilityRegion : Color -> PieceType -> Bitboard;
  kingType : PieceType;
  cambodianMoves : bool;
  diagonalLines : bool;
  promotionPawnTypes : PerColor PieceSet;
  promotionPieceTypes : PerColor PieceSet;
  promotedPieceType : list PieceType;
  pieceDrops : bool;
  capturesToHand : bool;
  mustDrop : bool;
  seirawanGating : bool;
  twoBoards : bool;
  doubleStep : bool;
  doubleStepRegion : PerColor Bitboard;
  extinctionValue : Value;
  extinctionPieceTypes : PieceSet;
  extinctionPieceCount : Z;
  checkmateValue : Value;
  stalemateValue : Value;
  materialCounting : Z;
  flagRegion : PerColor Bitboard;
  mustCapture : bool;
  checkCounting : bool;
  makpongRule : bool;
  connectN : Z;
  blastOnCapture : bool;
  petrifyOnCaptureTypes : PieceSet;
  connectHorizontal : bool;
  connectVertical : bool;
  connectDiagonal : bool;
  (* derived fields *)
  fastAttacks : bool;
  fastAttacks2 : bool;
  nnueKing : PieceType;
  pieceSquareIndex : PerColor (gmap N Z);
  pieceHandIndex : PerColor (gmap N Z);
  kingSquareIndex : gmap Z Z;
  nnueDimensions : Z;
  nnueMaxPieces : Z;
  nnueUsePockets : bool;
  endgameEval : bool;
  shogiStylePromotions : bool;
  connect_directions : list Direction
}.

(** ** What the missing headers declare *)

Class Types := {
  FILE_MAX : Z;
  RANK_MAX : Z;
  SQUARE_NB : Z;
  SQ_A1 : Square;
  NO_PIECE_TYPE : PieceType;
  KING : PieceType;
  COMMONER : PieceType;
  CHESS_PIECES : PieceSet;
  COMMON_FAIRY_PIECES : PieceSet;
  SHOGI_PIECES : PieceSet;
  COMMON_STEP_PIECES : PieceSet;
  VALUE_NONE : Value;
  VALUE_MATE : Value;
  VALUE_DRAW : Value;
  make_piece : Color -> PieceType -> Piece;
  make_bitboard : Square -> Bitboard;
  relative_square : Color -> Square -> Z -> Square
}.

(** ** Bit-set primitives

    The helpers of [types.h] and [bitboard.h] on sets of piece types.
    A [PieceSet] is a 64-bit word in which bit [pt] says that piece type
    [pt] belongs to the set. *)

(** Modelled from the spec: [piece_set(pt)] of [types.h], the set that
    holds [pt] alone, [1ULL << pt]. *)
Definition piece_set (pt : PieceType) : PieceSet := N.shiftl 1 pt.

(** Modelled from the spec: [ps & pt] of [types.h] for a set and a
    piece type, the test that [pt] is "present" in, or "among", [ps]:
    [ps & piece_set(pt)] used as a condition. *)
Definition has_piece (ps : PieceSet) (pt : PieceType) : bool :=
  negb (N.land ps (piece_set pt) =? 0)%N.

Fixpoint ctz (p : positive) : N :=
  match p with
  | xO p' => N.succ (ctz p')
  | _ => 0%N
  end.

(** Modelled from the spec: [lsb(ps)] of [types.h], the piece type of
    the least significant set bit (the first one in "ascending type
    order"). *)
Definition lsb (ps : PieceSet) : PieceType :=
  match ps with
  | N0 => 0%N
  | Npos p => ctz p
  end.

(** Modelled from the spec: [pop_lsb(ps)] of [types.h], which returns
    [lsb(ps)] and removes it from [ps]. *)
Definition pop_lsb (ps : PieceSet) : PieceType * PieceSet :=
  (lsb ps, N.clearbit ps (lsb ps)).

Fixpoint popcount_pos (p : positive) : Z :=
  match p with
  | xH => 1
  | xO p' => popcount_pos p'
  | xI p' => 1 + popcount_pos p'
  end.

Definition popcount (n : N) : Z :=
  match n with
  | N0 => 0
  | Npos p => popcount_pos p
  end.

(** [std::bitset<64>(x).count()]. *)
Definition bitset64_count (x : N) : Z := popcount (x mod 2 ^ 64)%N.

(** ** [std::string] helpers *)

(** [s.find(c)]; [None] is [npos]. *)
Fixpoint find_char (c : ascii) (s : string) : option nat :=
  match s with
  | EmptyString => None
  | String a r =>
      if Ascii.eqb a c then Some O
      else match find_char c r with
           | Some n => Some (S n)
           | None => None
           end
  end.

(** [s.substr(0, n)] with [n = npos] when [None]. *)
Fixpoint substr0 (s : string) (n : option nat) : string :=
  match n with
  | None => s
  | Some O => EmptyString
  | Some (S k) =>
      match s with
      | EmptyString => EmptyString
      | String a r => String a (substr0 r (Some k))
      end
  end.

(** [std::count(s.begin(), s.end(), c)]. *)
Fixpoint count_char (c : ascii) (s : string) : Z :=
  match s with
  | EmptyString => 0
  | String a r => (if Ascii.eqb a c then 1 else 0) + count_char c r
  end.

(** [s[i]]; reading at or past the end yields the terminating NUL. *)
Definition char_at (s : string) (i : N) : ascii :=
  match String.get (N.to_nat i) s with
  | Some c => c
  | None => zero
  end.

(** [isspace] in the "C" locale. *)
Definition isspace (c : ascii) : bool :=
  let n := N_of_ascii c in
  ((9 <=? n) && (n <=? 13) || (n =? 32))%N.

Definition nonzero (b : N) : bool := negb (b =? 0)%N.

(** [s.find(c) != std::string::npos]. *)
Definition contains (s : string) (c : ascii) : bool :=
  match find_char c s with
  | Some _ => true
  | None => false
  end.

(** ** [Variant::conclude] (lines 148-295)

    The loops take the local variables they read as arguments; every
    other definition is named after the member or local it computes. *)

(** Number of rounds granted to a loop that removes one element of the
    set [ps] per round. *)
Definition set_fuel (ps : PieceSet) : nat := N.to_nat (N.size ps).

(** Lines 156-162: the loop that looks for a restricted piece type. *)
Fixpoint restricted_loop (mobilityRegion : Color -> PieceType -> Bitboard)
    (fuel : nat) (ps : PieceSet) (restrictedMobility : bool) : bool :=
  match fuel with
  | O => restrictedMobility
  | S fuel' =>
      if negb restrictedMobility && nonzero ps then
        let '(pt, ps') := pop_lsb ps in
        restricted_loop mobilityRegion fuel' ps'
          (if nonzero (mobilityRegion WHITE pt) || nonzero (mobilityRegion BLACK pt)
           then true else restrictedMobility)
      else restrictedMobility
  end.

(** Lines 241-251: count of the pieces in the start position. *)
Fixpoint max_pieces_scan (pieceToChar pieceToCharSynonyms : string)
    (ss : string) (nnueMaxPieces : Z) : Z :=
  match ss with
  | EmptyString => nnueMaxPieces
  | String token rest =>
      if isspace token then nnueMaxPieces
      else max_pieces_scan pieceToChar pieceToCharSynonyms rest
             (if contains pieceToChar token || contains pieceToCharSynonyms token
              then int (nnueMaxPieces + 1) else nnueMaxPieces)
  end.

Definition store (t : PerColor (gmap N Z)) (c : Color) (pc : Piece) (x : Z)
    : PerColor (gmap N Z) :=
  upd t c (<[pc := x]> (sel t c)).

Section Derivation.
Context `{T : Types}.

(** Lines 150-153. *)
Definition doubleStepRegion_of (v : Variant) : PerColor Bitboard :=
  if negb (doubleStep v) then ByColor 0%N 0%N else doubleStepRegion v.

Definition doubleStep_of (v : Variant) : bool :=
  if negb (nonzero (sel (doubleStepRegion_of v) WHITE))
     && negb (nonzero (sel (doubleStepRegion_of v) BLACK))
  then false else doubleStep v.

(** Lines 156-172. *)
Definition restrictedMobility (v : Variant) : bool :=
  restricted_loop (mobilityRegion v) (set_fuel (pieceTypes v)) (pieceTypes v) false.

Definition fastAttacks_of (v : Variant) : bool :=
  negb (nonzero (N.ldiff (pieceTypes v) (N.lor CHESS_PIECES COMMON_FAIRY_PIECES)))
  && (kingType v =? KING)%N
  && negb (restrictedMobility v)
  && negb (cambodianMoves v)
  && negb (diagonalLines v).

Definition fastAttacks2_of (v : Variant) : bool :=
  negb (nonzero (N.ldiff (pieceTypes v) (N.lor SHOGI_PIECES COMMON_STEP_PIECES)))
  && (kingType v =? KING)%N
  && negb (restrictedMobility v)
  && negb (cambodianMoves v)
  && negb (diagonalLines v).

(** Lines 175-194: choice and validation of the NNUE king. *)
Definition fenBoard (v : Variant) : string :=
  substr0 (startFen v) (find_char " " (startFen v)).

Definition nnueKing_of (v : Variant) : PieceType :=
  let nnueKing :=
    if has_piece (pieceTypes v) KING then KING
    else if (extinctionPieceCount v =? 0)
            && has_piece (extinctionPieceTypes v) COMMONER then COMMONER
    else NO_PIECE_TYPE in
  let nnueKing :=
    if negb (nnueKing =? NO_PIECE_TYPE)%N then
      if has_piece (N.lor (sel (promotionPawnTypes v) WHITE)
                          (sel (promotionPawnTypes v) BLACK)) nnueKing
         || has_piece (N.lor (sel (promotionPieceTypes v) WHITE)
                             (sel (promotionPieceTypes v) BLACK)) nnueKing
         || existsb (N.eqb nnueKing) (promotedPieceType v)
      then NO_PIECE_TYPE else nnueKing
    else nnueKing in
  if negb (nnueKing =? NO_PIECE_TYPE)%N then
    if negb (count_char (char_at (pieceToChar v) (make_piece WHITE nnueKing))
                        (fenBoard v) =? 1)
       || negb (count_char (char_at (pieceToChar v) (make_piece BLACK nnueKing))
                           (fenBoard v) =? 1)
    then NO_PIECE_TYPE else nnueKing
  else nnueKing.

(** Lines 196-200: sizes of the feature space. *)
Definition nnueSquares_of (v : Variant) : Z :=
  int ((maxRank v + 1) * (maxFile v + 1)).

Definition nnueUsePockets_of (v : Variant) : bool :=
  (pieceDrops v
   && (capturesToHand v
       || (negb (mustDrop v) && negb (bitset64_count (pieceTypes v) =? 1))))
  || seirawanGating v.

Definition nnuePockets_of (v : Variant) : Z :=
  if nnueUsePockets_of v then int (2 * int (maxFile v + 1)) else 0.

Definition has_king (nnueKing : PieceType) : Z :=
  if negb (nnueKing =? NO_PIECE_TYPE)%N then 1 else 0.

Definition nnueNonDropPieceIndices_of (v : Variant) : Z :=
  int ((2 * bitset64_count (pieceTypes v) - has_king (nnueKing_of v))
       * nnueSquares_of v).

Definition nnuePieceIndices_of (v : Variant) : Z :=
  int (nnueNonDropPieceIndices_of v
       + 2 * (bitset64_count (pieceTypes v) - has_king (nnueKing_of v))
         * nnuePockets_of v).

(** Lines 209-215: the stores made for one piece type and one colour. *)
Definition index_body (nnueKing : PieceType)
    (nnueSquares nnuePockets nnueNonDropPieceIndices : Z) (pt : PieceType) (i : Z)
    (t : PerColor (gmap N Z) * PerColor (gmap N Z)) (c : Color)
    : PerColor (gmap N Z) * PerColor (gmap N Z) :=
  let '(pieceSquareIndex, pieceHandIndex) := t in
  let pieceSquareIndex :=
    store pieceSquareIndex c (make_piece c pt) (int (2 * i * nnueSquares)) in
  let pieceSquareIndex :=
    store pieceSquareIndex c (make_piece (flip c) pt)
      (int ((2 * i + (if (pt =? nnueKing)%N then 0 else 1)) * nnueSquares)) in
  let pieceHandIndex :=
    store pieceHandIndex c (make_piece c pt)
      (int (2 * i * nnuePockets + nnueNonDropPieceIndices)) in
  let pieceHandIndex :=
    store pieceHandIndex c (make_piece (flip c) pt)
      (int ((2 * i + 1) * nnuePockets + nnueNonDropPieceIndices)) in
  (pieceSquareIndex, pieceHandIndex).

(** Lines 201-217: offsets of every piece type in the feature space. *)
Fixpoint index_loop (nnueKing : PieceType)
    (nnueSquares nnuePockets nnueNonDropPieceIndices : Z)
    (fuel : nat) (ps : PieceSet) (i : Z)
    (t : PerColor (gmap N Z) * PerColor (gmap N Z))
    : PerColor (gmap N Z) * PerColor (gmap N Z) :=
  match fuel with
  | O => t
  | S fuel' =>
      if nonzero ps then
        let pt := lsb (if negb (ps =? piece_set nnueKing)%N
                       then N.ldiff ps (piece_set nnueKing) else ps) in
        let ps := N.lxor ps (piece_set pt) in
        let t := foldl (index_body nnueKing nnueSquares nnuePockets
                          nnueNonDropPieceIndices pt i) t [WHITE; BLACK] in
        index_loop nnueKing nnueSquares nnuePockets nnueNonDropPieceIndices
          fuel' ps (int (i + 1)) t
      else t
  end.

Definition index_tables_from (v : Variant)
    (t : PerColor (gmap N Z) * PerColor (gmap N Z))
    : PerColor (gmap N Z) * PerColor (gmap N Z) :=
  let i := 0 in
  index_loop (nnueKing_of v) (nnueSquares_of v) (nnuePockets_of v)
    (nnueNonDropPieceIndices_of v)
    (set_fuel (pieceTypes v)) (pieceTypes v) i t.

Definition index_tables_of (v : Variant)
    : PerColor (gmap N Z) * PerColor (gmap N Z) :=
  index_tables_from v (pieceSquareIndex v, pieceHandIndex v).

(** Lines 228-231: may the king stand on square [s]? *)
Definition king_allowed (v : Variant) (s : Square) : bool :=
  let bitboardSquare :=
    int (s + Z.quot s (int (maxFile v + 1)) * int (FILE_MAX - maxFile v)) in
  negb (nonzero (mobilityRegion v WHITE (nnueKing_of v)))
  || negb (nonzero (mobilityRegion v BLACK (nnueKing_of v)))
  || nonzero (N.land (mobilityRegion v WHITE (nnueKing_of v))
                (make_bitboard bitboardSquare))
  || nonzero (N.land (mobilityRegion v BLACK (nnueKing_of v))
                (make_bitboard (relative_square BLACK bitboardSquare (maxRank v)))).

(** Lines 226-235: one round of the loop over the squares. *)
Definition king_square_body (v : Variant) (st : gmap Z Z * Z) (s : Square)
    : gmap Z Z * Z :=
  let '(kingSquareIndex, nnueKingSquare) := st in
  if king_allowed v s then
    (<[s := int (nnueKingSquare * nnuePieceIndices_of v)]> kingSquareIndex,
     int (nnueKingSquare + 1))
  else st.

(** Lines 224-237: the table and the final value of [nnueKingSquare],
    from the table found on entry. *)
Definition king_squares_from (v : Variant) (kingSquareIndex : gmap Z Z)
    : gmap Z Z * Z :=
  let nnueKingSquare := 0 in
  if nonzero (nnueKing_of v) && (nnueSquares_of v <=? SQUARE_NB) then
    foldl (king_square_body v) (kingSquareIndex, nnueKingSquare)
          (seqZ SQ_A1 (nnueSquares_of v - SQ_A1))
  else
    (<[SQ_A1 := int (nnueKingSquare * nnuePieceIndices_of v)]> kingSquareIndex,
     int (nnueKingSquare + 1)).

Definition king_squares_of (v : Variant) : gmap Z Z * Z :=
  king_squares_from v (kingSquareIndex v).

(** Line 238. *)
Definition nnueDimensions_of (v : Variant) : Z :=
  int (snd (king_squares_of v) * nnuePieceIndices_of v).

(** Lines 241-251. *)
Definition nnueMaxPieces_of (v : Variant) : Z :=
  let nnueMaxPieces :=
    max_pieces_scan (pieceToChar v) (pieceToCharSynonyms v) (startFen v) 0 in
  if twoBoards v then int (nnueMaxPieces * 2) else nnueMaxPieces.

(** Lines 255-269. *)
Definition endgameEval_of (v : Variant) : bool :=
  (extinctionValue v =? VALUE_NONE)
  && (checkmateValue v =? - VALUE_MATE)
  && (stalemateValue v =? VALUE_DRAW)
  && negb (negb (materialCounting v =? 0))
  && negb (nonzero (sel (flagRegion v) WHITE) || nonzero (sel (flagRegion v) BLACK))
  && negb (mustCapture v)
  && negb (checkCounting v)
  && negb (makpongRule v)
  && negb (negb (connectN v =? 0))
  && negb (blastOnCapture v)
  && negb (nonzero (petrifyOnCaptureTypes v))
  && negb (capturesToHand v)
  && negb (twoBoards v)
  && negb (restrictedMobility v)
  && (kingType v =? KING)%N.

(** Lines 271-277. *)
Definition shogiStylePromotions_of (v : Variant) : bool :=
  existsb (fun current => negb (current =? NO_PIECE_TYPE)%N) (promotedPieceType v).

(** Lines 279-292. *)
Definition connect_directions_of (v : Variant) : list Direction :=
  (if connectHorizontal v then [EAST] else [])
  ++ (if connectVertical v then [NORTH] else [])
  ++ (if connectDiagonal v then [NORTH_EAST; SOUTH_EAST] else []).

Definition conclude (v : Variant) : Variant :=
  {| maxRank := maxRank v;
     maxFile := maxFile v;
     pieceTypes := pieceTypes v;
     pieceToChar := pieceToChar v;
     pieceToCharSynonyms := pieceToCharSynonyms v;
     startFen := startFen v;
     mobilityRegion := mobilityRegion v;
     kingType := kingType v;
     cambodianMoves := cambodianMoves v;
     diagonalLines := diagonalLines v;
     promotionPawnTypes := promotionPawnTypes v;
     promotionPieceTypes := promotionPieceTypes v;
     promotedPieceType := promotedPieceType v;
     pieceDrops := pieceDrops v;
     capturesToHand := capturesToHand v;
     mustDrop := mustDrop v;
     seirawanGating := seirawanGating v;
     twoBoards := twoBoards v;
     doubleStep := doubleStep_of v;
     doubleStepRegion := doubleStepRegion_of v;
     extinctionValue := extinctionValue v;
     extinctionPieceTypes := extinctionPieceTypes v;
     extinctionPieceCount := extinctionPieceCount v;
     checkmateValue := checkmateValue v;
     stalemateValue := stalemateValue v;
     materialCounting := materialCounting v;
     flagRegion := flagRegion v;
     mustCapture := mustCapture v;
     checkCounting := checkCounting v;
     makpongRule := makpongRule v;
     connectN := connectN v;
     blastOnCapture := blastOnCapture v;
     petrifyOnCaptureTypes := petrifyOnCaptureTypes v;
     connectHorizontal := connectHorizontal v;
     connectVertical := connectVertical v;
     connectDiagonal := connectDiagonal v;
     fastAttacks := fastAttacks_of v;
     fastAttacks2 := fastAttacks2_of v;
     nnueKing := nnueKing_of v;
     pieceSquareIndex := fst (index_tables_of v);
     pieceHandIndex := snd (index_tables_of v);
     kingSquareIndex := fst (king_squares_of v);
     nnueDimensions := nnueDimensions_of v;
     nnueMaxPieces := nnueMaxPieces_of v;
     nnueUsePockets := nnueUsePockets_of v;
     endgameEval := endgameEval_of v;
     shogiStylePromotions := shogiStylePromotions_of v;
     connect_directions := connect_directions_of v |}.

End Derivation.

(** ** Input streams ([std::istream], [std::stringstream])

    A stream is the text that is still to be read and the two state
    bits the parser depends on. Every input function first builds a
    sentry, which sets [failbit] when the stream is not [good]. *)

Record istream := { buf : string; eofbit : bool; failbit : bool }.

Definition open_stream (text : string) : istream :=
  {| buf := text; eofbit := false; failbit := false |}.

Definition good (s : istream) : bool := negb (eofbit s) && negb (failbit s).

Definition set_fail (s : istream) : istream :=
  {| buf := buf s; eofbit := eofbit s; failbit := true |}.

(** [s.peek()]; [None] is [EOF]. *)
Definition peek (s : istream) : option ascii * istream :=
  if good s then
    match buf s with
    | EmptyString => (None, {| buf := buf s; eofbit := true; failbit := failbit s |})
    | String c _ => (Some c, s)
    end
  else (None, set_fail s).

(** [s.get()]; [None] is [EOF]. *)
Definition get (s : istream) : option ascii * istream :=
  if good s then
    match buf s with
    | EmptyString => (None, {| buf := buf s; eofbit := true; failbit := true |})
    | String c r => (Some c, {| buf := r; eofbit := false; failbit := false |})
    end
  else (None, set_fail s).

(** Characters up to [delim]: the text before it, the text after it, and
    whether the delimiter was met before the end of the input. *)
Fixpoint extract_line (delim : ascii) (b : string) : string * string * bool :=
  match b with
  | EmptyString => (EmptyString, EmptyString, false)
  | String c r =>
      if Ascii.eqb c delim then (EmptyString, r, true)
      else let '(l, r', found) := extract_line delim r in (String c l, r', found)
  end.

Definition is_empty (s : string) : bool :=
  match s with EmptyString => true | _ => false end.

(** [std::getline(s, str, delim)], giving the new value of [str]. When
    the sentry fails [str] is left alone; the callers never read it in
    that case, and the empty string stands for it. *)
Definition getline (s : istream) (delim : ascii) : string * istream :=
  if good s then
    let '(line, rest, found) := extract_line delim (buf s) in
    if found then (line, {| buf := rest; eofbit := false; failbit := false |})
    else (line, {| buf := rest; eofbit := true; failbit := is_empty line |})
  else (EmptyString, set_fail s).

Fixpoint skip_ws (b : string) : string :=
  match b with
  | EmptyString => EmptyString
  | String c r => if isspace c then skip_ws r else b
  end.

(** [s >> std::ws]. *)
Definition ws (s : istream) : istream :=
  if good s then
    let b := skip_ws (buf s) in
    {| buf := b; eofbit := is_empty b; failbit := false |}
  else set_fail s.

(** [c != ch] for the [int] returned by [peek]. *)
Definition differs (c : option ascii) (ch : ascii) : bool :=
  match c with
  | Some a => negb (Ascii.eqb a ch)
  | None => true
  end.

(** The [int] returned by [get] used as a condition: [EOF] is not zero. *)
Definition truthy (c : option ascii) : bool :=
  match c with
  | Some a => negb (Ascii.eqb a zero)
  | None => true
  end.

(** [s.find_last_not_of(c)]. *)
Fixpoint find_last_not_of (c : ascii) (s : string) : option nat :=
  match s with
  | EmptyString => None
  | String a r =>
      match find_last_not_of c r with
      | Some n => Some (S n)
      | None => if Ascii.eqb a c then None else Some O
      end
  end.

(** [s.back()] and [s.pop_back()] on a string that is not empty. *)
Fixpoint back (s : string) : ascii :=
  match s with
  | EmptyString => zero
  | String a EmptyString => a
  | String _ r => back r
  end.

Fixpoint pop_back (s : string) : string :=
  match s with
  | EmptyString => EmptyString
  | String _ EmptyString => EmptyString
  | String a r => String a (pop_back r)
  end.

(** ** The registry and the parser (lines 300-380) *)

Class Parser := {
  (** [Variant::init()], from [variant.h]. *)
  Variant_init : Variant -> Variant;
  (** [VariantParser<DoCheck>(attribs).parse(v)]: the ruleset it returns
      and the lines it prints on [std::cerr]. *)
  VariantParser_parse : bool -> gmap string string -> Variant -> Variant * list string;
  (** [VariantParser<DoCheck>(attribs).parse()]. *)
  VariantParser_parse_default : bool -> gmap string string -> Variant * list string
}.

(** [std::map::insert]: the pair is stored only when the key is free. *)
Definition map_insert {A} (k : string) (x : A) (m : gmap string A) : gmap string A :=
  match m !! k with
  | Some _ => m
  | None => <[k := x]> m
  end.

(** State of [parse_istream]: the stream, the global registry
    [variants] (the receiver of the call), what was printed on
    [std::cerr], and the local [varsToErase]. *)
Record pstate := {
  file : istream;
  variants : gmap string Variant;
  cerr : list string;
  varsToErase : list string
}.

Inductive flow := Continue (st : pstate) | Break (st : pstate).

Section Registry.
Context `{T : Types} `{P : Parser}.

(** Lines 378-380. *)
Definition add (s : string) (v : Variant) (m : gmap string Variant)
    : gmap string Variant :=
  map_insert s (conclude v) m.

(** Line 303: skip what precedes the first header. *)
Fixpoint skip_loop (fuel : nat) (file : istream) : option istream :=
  match fuel with
  | O => None
  | S fuel' =>
      let '(c, file) := peek file in
      if differs c "[" then
        let '(_, file) := getline file "010" in
        if negb (failbit file) then skip_loop fuel' file else Some file
      else Some file
  end.

(** Lines 309-310: name and template of a header. *)
Definition parse_header (variant : string) : string * string :=
  let ss := open_stream variant in
  let '(variant, ss) := getline ss ":" in
  let '(variant_template, ss) := getline ss "010" in
  if failbit ss then (variant, EmptyString) else (variant, variant_template).

(** Lines 316-325: one line of a section. *)
Definition parse_line (DoCheck : bool) (input : string)
    (attribs : gmap string string) (cerr : list string)
    : gmap string string * list string :=
  let input :=
    if negb (is_empty input) && Ascii.eqb (back input) "013"
    then pop_back input else input in
  let ss := open_stream input in
  let '(c, ss) := peek ss in
  if differs c ";" then
    let '(c, ss) := peek ss in
    if differs c "#" then
      let cerr :=
        if DoCheck && negb (is_empty input) && negb (contains input "=")
        then cerr ++ [String.append "Invalid syntax: '" (String.append input "'.")]
        else cerr in
      let '(key, ss) := getline ss "=" in
      let ss := ws ss in
      let '(value, ss) := getline ss "010" in
      if negb (failbit ss) && negb (is_empty key) then
        let key :=
          substr0 key (Some (match find_last_not_of " " key with
                             | Some n => S n
                             | None => O
                             end)) in
        (<[key := value]> attribs, cerr)
      else (attribs, cerr)
    else (attribs, cerr)
  else (attribs, cerr).

(** Lines 314-326: the lines of a section. *)
Fixpoint attribs_loop (DoCheck : bool) (fuel : nat) (file : istream)
    (attribs : gmap string string) (cerr : list string)
    : option (istream * gmap string string * list string) :=
  match fuel with
  | O => None
  | S fuel' =>
      let '(c, file) := peek file in
      if differs c "[" then
        let '(input, file) := getline file "010" in
        if negb (failbit file) then
          let '(attribs, cerr) := parse_line DoCheck input attribs cerr in
          attribs_loop DoCheck fuel' file attribs cerr
        else Some (file, attribs, cerr)
      else Some (file, attribs, cerr)
  end.

(** Lines 329-349: create and register the variant of a section. *)
Definition create_variant (DoCheck : bool) (variant variant_template : string)
    (attribs : gmap string string) (st : pstate) : pstate :=
  match variants st !! variant with
  | Some _ =>
      {| file := file st; variants := variants st;
         cerr := cerr st ++ [String.append "Variant '"
                               (String.append variant "' already exists.")];
         varsToErase := varsToErase st |}
  | None =>
      let base :=
        if negb (is_empty variant_template) then
          match variants st !! variant_template with
          | Some t => Some (Some t)
          | None => None
          end
        else Some None in
      match base with
      | None =>
          {| file := file st; variants := variants st;
             cerr := cerr st ++ [String.append "Variant template '"
                                   (String.append variant_template "' does not exist.")];
             varsToErase := varsToErase st |}
      | Some template =>
          let cerr1 :=
            if DoCheck then cerr st ++ [String.append "Parsing variant: " variant]
            else cerr st in
          let '(v, printed) :=
            match template with
            | Some t => VariantParser_parse DoCheck attribs (Variant_init t)
            | None => VariantParser_parse_default DoCheck attribs
            end in
          if (maxFile v <=? FILE_MAX) && (maxRank v <=? RANK_MAX) then
            {| file := file st;
               variants := add variant v (variants st);
               cerr := cerr1 ++ printed;
               varsToErase :=
                 if DoCheck then varsToErase st ++ [variant] else varsToErase st |}
          else
            {| file := file st; variants := variants st;
               cerr := cerr1 ++ printed;
               varsToErase := varsToErase st |}
      end
  end.

Definition with_file (st : pstate) (f : istream) : pstate :=
  {| file := f; variants := variants st; cerr := cerr st;
     varsToErase := varsToErase st |}.

(** Lines 306-350: one round of the loop over the sections. *)
Definition section_iter (DoCheck : bool) (st : pstate) : option flow :=
  let '(c, f) := get (file st) in
  if truthy c then
    let '(variant, f) := getline f "]" in
    let '(_, f) := getline f "010" in
    if negb (failbit f) then
      let '(variant, variant_template) := parse_header variant in
      match attribs_loop DoCheck (S (String.length (buf f))) f ∅ (cerr st) with
      | None => None
      | Some (f, attribs, cerr1) =>
          Some (Continue
                  (create_variant DoCheck variant variant_template attribs
                     {| file := f; variants := variants st; cerr := cerr1;
                        varsToErase := varsToErase st |}))
      end
    else Some (Break (with_file st f))
  else Some (Break (with_file st f)).

Fixpoint sections_loop (DoCheck : bool) (fuel : nat) (st : pstate) : option pstate :=
  match fuel with
  | O => None
  | S fuel' =>
      match section_iter DoCheck st with
      | None => None
      | Some (Break st') => Some st'
      | Some (Continue st') => sections_loop DoCheck fuel' st'
      end
  end.

(** Lines 352-356: erase the temporary variants. *)
Definition erase_all (names : list string) (m : gmap string Variant)
    : gmap string Variant :=
  foldl (fun m tempVar => delete tempVar m) m names.

(** Lines 300-357. The result is the registry and what was printed;
    [None] only if a loop were to need more rounds than the input has
    characters. *)
Definition parse_istream (DoCheck : bool) (input : string)
    (registry : gmap string Variant) (printed : list string)
    : option (gmap string Variant * list string) :=
  match skip_loop (S (String.length input)) (open_stream input) with
  | None => None
  | Some f =>
      match sections_loop DoCheck (S (String.length (buf f)))
              {| file := f; variants := registry; cerr := printed;
                 varsToErase := [] |} with
      | None => None
      | Some st => Some (erase_all (varsToErase st) (variants st), cerr st)
      end
  end.

End Registry.

(** ** Vocabulary of the proofs

    A table that is only ever written by stores [t[k] = x] is described
    by the list of its stores: [puts] replays them, [last_put] finds the
    value the last store to a key left. *)

Section Stores.
Context {M K V : Type} `{EqDecision K}.
Variable put : K -> V -> M -> M.

Definition puts (ws : list (K * V)) (m : M) : M :=
  foldl (fun m w => put (fst w) (snd w) m) m ws.

Fixpoint last_put (ws : list (K * V)) (k : K) : option V :=
  match ws with
  | [] => None
  | w :: ws' =>
      match last_put ws' k with
      | Some x => Some x
      | None => if decide (fst w = k) then Some (snd w) else None
      end
  end.
End Stores.

#[global] Instance Color_eq_dec : EqDecision Color.
Proof. solve_decision. Defined.

(** Reading and writing the two offset tables through one key: which
    table, which colour, which piece. *)
Definition tables_look (t : PerColor (gmap N Z) * PerColor (gmap N Z))
    (k : bool * Color * N) : option Z :=
  sel (if fst (fst k) then fst t else snd t) (snd (fst k)) !! snd k.

Definition tables_put (k : bool * Color * N) (x : Z)
    (t : PerColor (gmap N Z) * PerColor (gmap N Z))
    : PerColor (gmap N Z) * PerColor (gmap N Z) :=
  if fst (fst k) then (store (fst t) (snd (fst k)) (snd k) x, snd t)
  else (fst t, store (snd t) (snd (fst k)) (snd k) x).

(** Specification-side vocabulary for the choice of the NNUE king. *)
Section AnchorSpec.
Context `{T : Types}.

(** The preferred anchor, before any rejection. *)
Definition preferred_anchor (v : Variant) : PieceType :=
  if N.testbit (pieceTypes v) KING then KING
  else if (extinctionPieceCount v =? 0) && N.testbit (extinctionPieceTypes v) COMMONER
       then COMMONER
  else NO_PIECE_TYPE.

(** Number of occurrences of the letter of piece [(c, a)] in the board
    part of the start position. *)
Definition occurrences (v : Variant) (c : Color) (a : PieceType) : nat :=
  count_occ ascii_dec (list_ascii_of_string (fenBoard v))
            (char_at (pieceToChar v) (make_piece c a)).

(** The reasons for which a chosen anchor is given up. *)
Definition anchor_rejected (v : Variant) (a : PieceType) : Prop :=
  N.testbit (sel (promotionPawnTypes v) WHITE) a = true
  \/ N.testbit (sel (promotionPawnTypes v) BLACK) a = true
  \/ N.testbit (sel (promotionPieceTypes v) WHITE) a = true
  \/ N.testbit (sel (promotionPieceTypes v) BLACK) a = true
  \/ In a (promotedPieceType v)
  \/ occurrences v WHITE a <> 1%nat
  \/ occurrences v BLACK a <> 1%nat.
End AnchorSpec.

(** Specification-side vocabulary for the two scans of [startFen]. *)

(** The text before the first character on which [stop] holds. *)
Fixpoint before_char (stop : ascii -> bool) (s : string) : string :=
  match s with
  | EmptyString => EmptyString
  | String c r => if stop c then EmptyString else String c (before_char stop r)
  end.

Definition before_space (s : string) : string :=
  before_char (fun c => Ascii.eqb c " ") s.

Definition before_whitespace (s : string) : string := before_char isspace s.

(** Number of characters of [s] that are a piece letter or a synonym. *)
Fixpoint recognised_count (pieceToChar pieceToCharSynonyms s : string) : Z :=
  match s with
  | EmptyString => 0
  | String c r =>
      (if contains pieceToChar c || contains pieceToCharSynonyms c then 1 else 0)
      + recognised_count pieceToChar pieceToCharSynonyms r
  end.

Definition no_whitespace (s : string) : bool :=
  forallb (fun c => negb (isspace c)) (list_ascii_of_string s).

Section KingRank.
Context `{T : Types}.

(** Number of squares among [a], ..., [a + m - 1] the king may stand on. *)
Fixpoint allowed_count (v : Variant) (a : Square) (m : nat) : Z :=
  match m with
  | O => 0
  | S m' => allowed_count v a m'
            + (if king_allowed v (a + Z.of_nat m') then 1 else 0)
  end.

(** The rank of square [s] among the squares the king may stand on:
    how many of them come before [s]. *)
Definition king_rank (v : Variant) (s : Square) : Z :=
  allowed_count v SQ_A1 (Z.to_nat (s - SQ_A1)).
End KingRank.

Section ParsedRuleset.
Context `{T : Types} `{P : Parser}.

(** The ruleset the attribute applier returns for a section, with what
    it printed: from a copy of the template when one is named, from the
    default ruleset otherwise. *)
Definition parsed_ruleset (DoCheck : bool) (attribs : gmap string string)
    (registry : gmap string Variant) (variant_template : string)
    : Variant * list string :=
  match (if is_empty variant_template then None else registry !! variant_template) with
  | Some t => VariantParser_parse DoCheck attribs (Variant_init t)
  | None => VariantParser_parse_default DoCheck attribs
  end.

(** The state at the start of round [n] of the loop over the sections,
    when the loop gets that far. *)
Fixpoint after_rounds (DoCheck : bool) (n : nat) (st : pstate) : option pstate :=
  match n with
  | O => Some st
  | S n' =>
      match section_iter DoCheck st with
      | Some (Continue st') => after_rounds DoCheck n' st'
      | _ => None
      end
  end.
End ParsedRuleset.

(** The registry holds what it held on entry, apart from the names
    listed for erasure, which were free on entry. *)
Definition only_added (registry : gmap string Variant) (st : pstate) : Prop :=
  (forall k, k ∉ varsToErase st -> variants st !! k = registry !! k)
  /\ (forall k, k ∈ varsToErase st -> registry !! k = None).

Definition flow_state (r : flow) : pstate :=
  match r with Continue st => st | Break st => st end.

(** ** A sample instantiation

    Enumerators in the style of the small-board build (8 files, 8 ranks,
    6 bits per piece type), an attribute applier that understands two
    keys, and the chess ruleset. They serve as concrete inputs. *)

Definition PIECE_TYPE_BITS : N := 6.
Definition PAWN : PieceType := 1%N.
Definition KNIGHT : PieceType := 2%N.
Definition BISHOP : PieceType := 3%N.
Definition ROOK : PieceType := 4%N.
Definition QUEEN : PieceType := 5%N.

Definition sample_relative_square (c : Color) (s : Square) (maxRank : Z) : Square :=
  match c with
  | WHITE => s
  | BLACK => (maxRank - Z.quot s 8) * 8 + Z.rem s 8
  end.

Definition sample_types : Types :=
  {| FILE_MAX := 7;
     RANK_MAX := 7;
     SQUARE_NB := 64;
     SQ_A1 := 0;
     NO_PIECE_TYPE := 0%N;
     KING := 63%N;
     COMMONER := 37%N;
     CHESS_PIECES := N.lor (piece_set 63%N) 62%N;
     COMMON_FAIRY_PIECES := 0%N;
     SHOGI_PIECES := 0%N;
     COMMON_STEP_PIECES := 0%N;
     VALUE_NONE := 32002;
     VALUE_MATE := 32000;
     VALUE_DRAW := 0;
     make_piece := fun c pt =>
       (N.shiftl (match c with WHITE => 0 | BLACK => 1 end) PIECE_TYPE_BITS + pt)%N;
     make_bitboard := fun s => N.shiftl 1 (Z.to_N s);
     relative_square := sample_relative_square |}.

(** A [pieceToChar] string: [entries] gives the letter of some pieces,
    every other piece has a blank. *)
Definition char_table (entries : list (N * ascii)) : string :=
  string_of_list_ascii
    (map (fun i =>
            match find (fun e => (fst e =? N.of_nat i)%N) entries with
            | Some e => snd e
            | None => " "%char
            end)
         (seq 0 128)).

Definition chess_chars : string :=
  char_table [(1, "P"); (2, "N"); (3, "B"); (4, "R"); (5, "Q"); (63, "K");
              (65, "p"); (66, "n"); (67, "b"); (68, "r"); (69, "q"); (127, "k")]%N%char.

Definition blank_chars : string := char_table [].

Definition chess : Variant :=
  {| maxRank := 7;
     maxFile := 7;
     pieceTypes := N.lor (piece_set 63%N) 62%N;
     pieceToChar := chess_chars;
     pieceToCharSynonyms := blank_chars;
     startFen := "rnbqkbnr/pppppppp/8/8/8/8/PPPPPPPP/RNBQKBNR w KQkq - 0 1";
     mobilityRegion := fun _ _ => 0%N;
     kingType := 63%N;
     cambodianMoves := false;
     diagonalLines := false;
     promotionPawnTypes := ByColor 2%N 2%N;
     promotionPieceTypes := ByColor 60%N 60%N;
     promotedPieceType := repeat 0%N 64;
     pieceDrops := false;
     capturesToHand := false;
     mustDrop := false;
     seirawanGating := false;
     twoBoards := false;
     doubleStep := true;
     doubleStepRegion := ByColor 65280%N 71776119061217280%N;
     extinctionValue := 32002;
     extinctionPieceTypes := 0%N;
     extinctionPieceCount := 0;
     checkmateValue := -32000;
     stalemateValue := 0;
     materialCounting := 0;
     flagRegion := ByColor 0%N 0%N;
     mustCapture := false;
     checkCounting := false;
     makpongRule := false;
     connectN := 0;
     blastOnCapture := false;
     petrifyOnCaptureTypes := 0%N;
     connectHorizontal := true;
     connectVertical := true;
     connectDiagonal := true;
     fastAttacks := false;
     fastAttacks2 := false;
     nnueKing := 0%N;
     pieceSquareIndex := ByColor ∅ ∅;
     pieceHandIndex := ByColor ∅ ∅;
     kingSquareIndex := ∅;
     nnueDimensions := 0;
     nnueMaxPieces := 0;
     nnueUsePockets := false;
     endgameEval := false;
     shogiStylePromotions := false;
     connect_directions := [] |}.

Definition with_startFen (v : Variant) (fen : string) : Variant :=
  {| maxRank := maxRank v;
     maxFile := maxFile v;
     pieceTypes := pieceTypes v;
     pieceToChar := pieceToChar v;
     pieceToCharSynonyms := pieceToCharSynonyms v;
     startFen := fen;
     mobilityRegion := mobilityRegion v;
     kingType := kingType v;
     cambodianMoves := cambodianMoves v;
     diagonalLines := diagonalLines v;
     promotionPawnTypes := promotionPawnTypes v;
     promotionPieceTypes := promotionPieceTypes v;
     promotedPieceType := promotedPieceType v;
     pieceDrops := pieceDrops v;
     capturesToHand := capturesToHand v;
     mustDrop := mustDrop v;
     seirawanGating := seirawanGating v;
     twoBoards := twoBoards v;
     doubleStep := doubleStep v;
     doubleStepRegion := doubleStepRegion v;
     extinctionValue := extinctionValue v;
     extinctionPieceTypes := extinctionPieceTypes v;
     extinctionPieceCount := extinctionPieceCount v;
     checkmateValue := checkmateValue v;
     stalemateValue := stalemateValue v;
     materialCounting := materialCounting v;
     flagRegion := flagRegion v;
     mustCapture := mustCapture v;
     checkCounting := checkCounting v;
     makpongRule := makpongRule v;
     connectN := connectN v;
     blastOnCapture := blastOnCapture v;
     petrifyOnCaptureTypes := petrifyOnCaptureTypes v;
     connectHorizontal := connectHorizontal v;
     connectVertical := connectVertical v;
     connectDiagonal := connectDiagonal v;
     fastAttacks := fastAttacks v;
     fastAttacks2 := fastAttacks2 v;
     nnueKing := nnueKing v;
     pieceSquareIndex := pieceSquareIndex v;
     pieceHandIndex := pieceHandIndex v;
     kingSquareIndex := kingSquareIndex v;
     nnueDimensions := nnueDimensions v;
     nnueMaxPieces := nnueMaxPieces v;
     nnueUsePockets := nnueUsePockets v;
     endgameEval := endgameEval v;
     shogiStylePromotions := shogiStylePromotions v;
     connect_directions := connect_directions v |}.

Definition with_extent (v : Variant) (rank file : Z) : Variant :=
  {| maxRank := rank;
     maxFile := file;
     pieceTypes := pieceTypes v;
     pieceToChar := pieceToChar v;
     pieceToCharSynonyms := pieceToCharSynonyms v;
     startFen := startFen v;
     mobilityRegion := mobilityRegion v;
     kingType := kingType v;
     cambodianMoves := cambodianMoves v;
     diagonalLines := diagonalLines v;
     promotionPawnTypes := promotionPawnTypes v;
     promotionPieceTypes := promotionPieceTypes v;
     promotedPieceType := promotedPieceType v;
     pieceDrops := pieceDrops v;
     capturesToHand := capturesToHand v;
     mustDrop := mustDrop v;
     seirawanGating := seirawanGating v;
     twoBoards := twoBoards v;
     doubleStep := doubleStep v;
     doubleStepRegion := doubleStepRegion v;
     extinctionValue := extinctionValue v;
     extinctionPieceTypes := extinctionPieceTypes v;
     extinctionPieceCount := extinctionPieceCount v;
     checkmateValue := checkmateValue v;
     stalemateValue := stalemateValue v;
     materialCounting := materialCounting v;
     flagRegion := flagRegion v;
     mustCapture := mustCapture v;
     checkCounting := checkCounting v;
     makpongRule := makpongRule v;
     connectN := connectN v;
     blastOnCapture := blastOnCapture v;
     petrifyOnCaptureTypes := petrifyOnCaptureTypes v;
     connectHorizontal := connectHorizontal v;
     connectVertical := connectVertical v;
     connectDiagonal := connectDiagonal v;
     fastAttacks := fastAttacks v;
     fastAttacks2 := fastAttacks2 v;
     nnueKing := nnueKing v;
     pieceSquareIndex := pieceSquareIndex v;
     pieceHandIndex := pieceHandIndex v;
     kingSquareIndex := kingSquareIndex v;
     nnueDimensions := nnueDimensions v;
     nnueMaxPieces := nnueMaxPieces v;
     nnueUsePockets := nnueUsePockets v;
     endgameEval := endgameEval v;
     shogiStylePromotions := shogiStylePromotions v;
     connect_directions := connect_directions v |}.

(** The sample attribute applier: [maxFile] is a letter ([a] is the
    first file) and [maxRank] a digit ([1] is the first rank); other
    keys are ignored and nothing is printed. *)
Definition sample_apply (attribs : gmap string string) (v : Variant) : Variant :=
  let file :=
    match attribs !! "maxFile"%string with
    | Some (String c _) => Z.of_N (N_of_ascii c) - 97
    | _ => maxFile v
    end in
  let rank :=
    match attribs !! "maxRank"%string with
    | Some (String c _) => Z.of_N (N_of_ascii c) - 49
    | _ => maxRank v
    end in
  with_extent v rank file.

Definition sample_parser : Parser :=
  {| Variant_init := fun v => v;
     VariantParser_parse := fun _ attribs v => (sample_apply attribs v, []);
     VariantParser_parse_default := fun _ attribs => (sample_apply attribs chess, []) |}.

(** Start positions in which a tab precedes the first space. *)
Definition tab_fen_kings : string := String "K" (String "009" "k w").
Definition tab_fen_queen : string := String "K" (String "009" "q w").

(** A start position with a pocket that holds a king. *)
Definition pocket_fen : string :=
  "rnbqkbnr/pppppppp/8/8/8/8/PPPPPPPP/RNBQKBNR[Kq] w KQkq - 0 1".

Definition empty_state : pstate :=
  {| file := open_stream ""; variants := ∅; cerr := []; varsToErase := [] |}.

(** The two-section file of the specification: [b] takes [a] as its
    template. *)
Definition two_sections : string :=
  String.append "[a]" (String "010" (String.append "[b:a]" (String "010" ""))).

(** ** The predefined variants (lines 34-144)

    The factories assign members of a ruleset made by [new Variant()].
    Assignments to members that the record does not keep are named in
    comments; what [variant.h] and [types.h] declare is a member of the
    class [Builtins]. *)

Class Builtins := {
  (** Is [LARGEBOARDS] defined? *)
  LARGEBOARDS : bool;
  (** The ruleset made by [new Variant()]. *)
  Variant_new : Variant;
  (** [v->reset_pieces()]. *)
  reset_pieces : Variant -> Variant;
  (** [v->add_piece(pt, c)]. *)
  add_piece : PieceType -> ascii -> Variant -> Variant;
  (** [v->add_piece(pt, c, betza)]. *)
  add_custom_piece : PieceType -> ascii -> string -> Variant -> Variant;
  SILVER : PieceType;
  FERS : PieceType;
  CUSTOM_PIECE_1 : PieceType;
  IMMOBILE_PIECE : PieceType;
  RANK_7 : Z;
  RANK_8 : Z;
  RANK_10 : Z;
  FILE_G : Z;
  FILE_H : Z;
  FILE_J : Z;
  UNWEIGHTED_MATERIAL : Z
}.

(** The assignments [v->startFen = fen; v->pieceDrops = drops;
    v->doubleStep = step; v->stalemateValue = stalemate;
    v->materialCounting = material]. *)
Definition with_rules (v : Variant) (fen : string) (drops step : bool)
    (stalemate : Value) (material : Z) : Variant :=
  {| maxRank := maxRank v;
     maxFile := maxFile v;
     pieceTypes := pieceTypes v;
     pieceToChar := pieceToChar v;
     pieceToCharSynonyms := pieceToCharSynonyms v;
     startFen := fen;
     mobilityRegion := mobilityRegion v;
     kingType := kingType v;
     cambodianMoves := cambodianMoves v;
     diagonalLines := diagonalLines v;
     promotionPawnTypes := promotionPawnTypes v;
     promotionPieceTypes := promotionPieceTypes v;
     promotedPieceType := promotedPieceType v;
     pieceDrops := drops;
     capturesToHand := capturesToHand v;
     mustDrop := mustDrop v;
     seirawanGating := seirawanGating v;
     twoBoards := twoBoards v;
     doubleStep := step;
     doubleStepRegion := doubleStepRegion v;
     extinctionValue := extinctionValue v;
     extinctionPieceTypes := extinctionPieceTypes v;
     extinctionPieceCount := extinctionPieceCount v;
     checkmateValue := checkmateValue v;
     stalemateValue := stalemate;
     materialCounting := material;
     flagRegion := flagRegion v;
     mustCapture := mustCapture v;
     checkCounting := checkCounting v;
     makpongRule := makpongRule v;
     connectN := connectN v;
     blastOnCapture := blastOnCapture v;
     petrifyOnCaptureTypes := petrifyOnCaptureTypes v;
     connectHorizontal := connectHorizontal v;
     connectVertical := connectVertical v;
     connectDiagonal := connectDiagonal v;
     fastAttacks := fastAttacks v;
     fastAttacks2 := fastAttacks2 v;
     nnueKing := nnueKing v;
     pieceSquareIndex := pieceSquareIndex v;
     pieceHandIndex := pieceHandIndex v;
     kingSquareIndex := kingSquareIndex v;
     nnueDimensions := nnueDimensions v;
     nnueMaxPieces := nnueMaxPieces v;
     nnueUsePockets := nnueUsePockets v;
     endgameEval := endgameEval v;
     shogiStylePromotions := shogiStylePromotions v;
     connect_directions := connect_directions v |}.

Section Factories.
Context `{T : Types} `{P : Parser} `{B : Builtins}.

(** Lines 36-39. *)
Definition variant_base : Variant := Variant_new.

(** Lines 41-45; [pieceToCharTable] is not kept. *)
Definition chess_variant_base : Variant := Variant_init variant_base.

(** Lines 48-52; [nnueAlias] is not kept. *)
Definition chess_variant : Variant := Variant_init chess_variant_base.

(** Lines 54-59. *)
Definition fairy_variant : Variant :=
  let v := Variant_init chess_variant_base in
  let v := add_piece SILVER "s" v in
  add_piece FERS "f" v.

(** Lines 62-83; [pieceToCharTable], [castling], [immobilityIllegal],
    [stalematePieceCount], [passOnStalemate], [enclosingDrop],
    [flipEnclosedPieces], [nMoveRule] and [freeDrops] are not kept. *)
Definition ataxx_variant : Variant :=
  let v := Variant_init chess_variant_base in
  let v := with_extent v RANK_7 FILE_G in
  let v := reset_pieces v in
  let v := add_custom_piece CUSTOM_PIECE_1 "p" "mDmNmA" v in
  with_rules v "P5p/7/7/7/7/7/p5P w 0 1" true false (- VALUE_MATE)
    UNWEIGHTED_MATERIAL.

(** Lines 86-106; [pieceToCharTable], [castling], [immobilityIllegal],
    [stalematePieceCount], [passOnStalemate], [enclosingDrop],
    [enclosingDropStart] and [flipEnclosedPieces] are not kept. *)
Definition flipersi_variant : Variant :=
  let v := Variant_init chess_variant_base in
  let v := with_extent v RANK_8 FILE_H in
  let v := reset_pieces v in
  let v := add_piece IMMOBILE_PIECE "p" v in
  with_rules v
    "8/8/8/8/8/8/8/8[PPPPPPPPPPPPPPPPPPPPPPPPPPPPPPPPpppppppppppppppppppppppppppppppp] w 0 1"
    true false (- VALUE_MATE) UNWEIGHTED_MATERIAL.

(** Lines 109-114; [passOnStalemate] is not kept. *)
Definition flipello_variant : Variant :=
  let v := Variant_init flipersi_variant in
  with_startFen v
    "8/8/8/3pP3/3Pp3/8/8/8[PPPPPPPPPPPPPPPPPPPPPPPPPPPPPPPPpppppppppppppppppppppppppppppppp] w 0 1".

(** Lines 119-126; [enclosingDropStart] is not kept. *)
Definition flipello10_variant : Variant :=
  let v := Variant_init flipello_variant in
  let v := with_extent v RANK_10 FILE_J in
  with_startFen v
    "10/10/10/10/4pP4/4Pp4/10/10/10/10[PPPPPPPPPPPPPPPPPPPPPPPPPPPPPPPPPPPPPPPPPPPPPPPPPPPPPPPPPPPPpppppppppppppppppppppppppppppppppppppppppppppppppppppppppppp] w - - 0 1".

(** Lines 133-144: [VariantMap::init]. *)
Definition init (m : gmap string Variant) : gmap string Variant :=
  let m := add "chess" chess_variant m in
  let m := add "normal" chess_variant m in
  let m := add "fairy" fairy_variant m in
  let m := add "ataxx" ataxx_variant m in
  let m := add "flipersi" flipersi_variant m in
  let m := add "flipello" flipello_variant m in
  if LARGEBOARDS then add "flipello10" flipello10_variant m else m.

(** The names [init] registers, in the order of the calls. *)
Definition builtin_names : list string :=
  ["chess"; "normal"; "fairy"; "ataxx"; "flipersi"; "flipello"]%string
  ++ (if LARGEBOARDS then ["flipello10"%string] else []).
End Factories.

(** ** The file front end and the other registry operations
    (lines 361-393) *)

(** [std::ifstream file(path)]: the text of the file when it can be
    opened. *)
Class Files := {
  ifstream_open : string -> option string
}.

Section FrontEnd.
Context `{T : Types} `{P : Parser} `{F : Files}.

(** Lines 361-373: [VariantMap::parse]. *)
Definition parse (DoCheck : bool) (path : string)
    (registry : gmap string Variant) (printed : list string)
    : option (gmap string Variant * list string) :=
  if is_empty path || String.eqb path "<empty>" then Some (registry, printed)
  else
    match ifstream_open path with
    | None => Some (registry, printed ++ [String.append "Unable to open file " path])
    | Some text => parse_istream DoCheck text registry printed
    end.
End FrontEnd.

(** Lines 382-386: [VariantMap::clear_all]. *)
Definition clear_all (m : gmap string Variant) : gmap string Variant := ∅.

(** The order of [std::map<std::string, ...>]: [operator<] of
    [std::string], the lexicographic order of the characters. *)
Definition string_le (a b : string) : Prop := String.leb a b = true.

#[global] Instance string_le_dec : RelDecision string_le.
Proof. intros a b. unfold string_le. apply _. Defined.

(** Lines 388-393: [VariantMap::get_keys], the keys in the order of the
    map. *)
Definition get_keys (m : gmap string Variant) : list string :=
  merge_sort string_le (map_to_list m).*1.

(** ** Vocabulary of the further properties *)

Section RegistryInvariantDefs.
Context `{T : Types}.

(** A ruleset on which [conclude] has nothing left to do. *)
Definition concluded (r : Variant) : Prop := conclude r = r.

(** Every registered ruleset is concluded. *)
Definition all_concluded (m : gmap string Variant) : Prop :=
  forall k r, m !! k = Some r -> concluded r.
End RegistryInvariantDefs.

(** Strings of [n] spaces. *)
Fixpoint spaces (n : nat) : string :=
  match n with O => EmptyString | S n' => String " " (spaces n') end.

(** The first character of a string, NUL for the empty string. *)
Definition front (s : string) : ascii :=
  match s with EmptyString => zero | String c _ => c end.

Definition is_newline (c : ascii) : bool := Ascii.eqb c "010".

(** ** Well-formed files *)

(** Lines, each closed by a line feed. *)
Definition unlines (ls : list string) : string :=
  foldr (fun l acc => l +:+ String "010" acc) EmptyString ls.

(** A line that the loops of lines 303 and 314 read as one line: it
    holds no line feed and does not start a header. *)
Definition body_line (l : string) : bool :=
  negb (contains l "010") && negb (Ascii.eqb (front l) "[").

(** A section: the text between the brackets, the rest of the header
    line, and the lines that follow. *)
Definition ini_section : Type := string * string * list string.

Definition well_formed (s : ini_section) : bool :=
  let '(header, junk, ls) := s in
  negb (contains header "]") && negb (contains junk "010") && forallb body_line ls.

Definition section_text (s : ini_section) : string :=
  let '(header, junk, ls) := s in
  String "[" (header +:+ String "]" (junk +:+ String "010" (unlines ls))).

Definition sections_text (ss : list ini_section) : string :=
  foldr (fun s acc => section_text s +:+ acc) EmptyString ss.

(** What may follow the last section: nothing, or an opening bracket
    and a text whose only closing bracket, if any, ends the input. *)
Definition dropped_tail (t : string) : bool :=
  match t with
  | EmptyString => true
  | String c h =>
      Ascii.eqb c "["
      && match find_char "]" h with
         | None => true
         | Some n => Nat.eqb (S n) (String.length h)
         end
  end.

Section Sections.
Context `{T : Types} `{P : Parser}.

(** What one section does to the registry, the printed lines and the
    list of transient names. *)
Definition read_section (DoCheck : bool)
    (acc : gmap string Variant * list string * list string) (s : ini_section)
    : gmap string Variant * list string * list string :=
  let '(registry, printed, erase) := acc in
  let '(header, _, ls) := s in
  let '(variant, variant_template) := parse_header header in
  let '(attribs, printed) :=
    foldl (fun ap l => parse_line DoCheck l ap.1 ap.2) (∅, printed) ls in
  let st :=
    create_variant DoCheck variant variant_template attribs
      {| file := open_stream EmptyString; variants := registry;
         cerr := printed; varsToErase := erase |} in
  (variants st, cerr st, varsToErase st).

End Sections.

(** The stream once the text [rest] is all that is left and the next
    character has been looked at. *)
Definition after (rest : string) : istream :=
  if is_empty rest
  then {| buf := EmptyString; eofbit := true; failbit := true |}
  else open_stream rest.

Definition at_header (rest : string) : Prop :=
  rest = EmptyString \/ exists r, rest = String "[" r.

(** A name without the two characters that end a name in a header. *)
Definition plain_name (k : string) : Prop :=
  contains k ":" = false /\ contains k "]" = false.

(** * Generic facts about stores *)

Section StoreFacts.
Context {M K V : Type} `{EqDecision K}.
Variable look : M -> K -> option V.
Variable put : K -> V -> M -> M.
Hypothesis look_put :
  forall m k x k', look (put k x m) k' = if decide (k = k') then Some x else look m k'.
Hypothesis look_ext : forall m1 m2, (forall k, look m1 k = look m2 k) -> m1 = m2.

Lemma look_puts ws : forall m k,
  look (puts put ws m) k
  = match last_put ws k with Some x => Some x | None => look m k end.
Proof.
  induction ws as [|w ws IH]; intros m k; [reflexivity|].
  change (puts put (w :: ws) m) with (puts put ws (put (fst w) (snd w) m)).
  cbn [last_put]. rewrite IH.
  destruct (last_put ws k); [reflexivity|].
  rewrite look_put. destruct (decide (fst w = k)); reflexivity.
Qed.

Lemma puts_idem ws m : puts put ws (puts put ws m) = puts put ws m.
Proof.
  apply look_ext. intros k. rewrite !look_puts.
  destruct (last_put ws k); reflexivity.
Qed.
End StoreFacts.

Lemma puts_app {M K V : Type} (put : K -> V -> M -> M) ws1 ws2 m :
  puts put (ws1 ++ ws2) m = puts put ws2 (puts put ws1 m).
Proof. unfold puts. apply foldl_app. Qed.

Lemma foldl_pointwise {A B} (f g : A -> B -> A) (l : list B) :
  (forall a b, f a b = g a b) -> forall a, foldl f a l = foldl g a l.
Proof.
  intros Hfg. induction l as [|b l IH]; intros a; [reflexivity|].
  cbn [foldl]. rewrite Hfg. apply IH.
Qed.

Lemma sel_store t c pc x c' :
  sel (store t c pc x) c' = if decide (c = c') then <[pc := x]> (sel t c') else sel t c'.
Proof. destruct t, c, c'; reflexivity. Qed.

Lemma tables_look_put t k x k' :
  tables_look (tables_put k x t) k' = if decide (k = k') then Some x else tables_look t k'.
Proof.
  destruct k as [[b c] pc], k' as [[b' c'] pc'], t as [t1 t2].
  unfold tables_look, tables_put; cbn [fst snd].
  destruct b, b'; cbn [fst snd]; rewrite ?sel_store;
    repeat case_decide; simplify_eq; rewrite ?lookup_insert_eq, ?lookup_insert_ne;
    try reflexivity; try congruence.
Qed.

Lemma PerColor_ext (t1 t2 : PerColor (gmap N Z)) :
  (forall c k, sel t1 c !! k = sel t2 c !! k) -> t1 = t2.
Proof.
  intros H. destruct t1 as [a1 b1], t2 as [a2 b2]. f_equal; apply map_eq; intros k.
  - apply (H WHITE k).
  - apply (H BLACK k).
Qed.

Lemma tables_look_ext t1 t2 :
  (forall k, tables_look t1 k = tables_look t2 k) -> t1 = t2.
Proof.
  intros H. destruct t1 as [a1 b1], t2 as [a2 b2].
  f_equal; apply PerColor_ext; intros c k.
  - apply (H (true, c, k)).
  - apply (H (false, c, k)).
Qed.

Lemma zmap_look_put (m : gmap Z Z) k x k' :
  <[k := x]> m !! k' = if decide (k = k') then Some x else m !! k'.
Proof. apply lookup_insert. Qed.

Section ConcludeFacts.
Context `{T : Types}.

(** The raw members other than the double-step pair are copied. *)
Lemma conclude_maxFile v : maxFile (conclude v) = maxFile v.
Proof. reflexivity. Qed.

Lemma conclude_maxRank v : maxRank (conclude v) = maxRank v.
Proof. reflexivity. Qed.

Lemma doubleStepRegion_of_conclude v :
  doubleStepRegion_of (conclude v) = doubleStepRegion_of v.
Proof.
  unfold doubleStepRegion_of, conclude; cbn [doubleStep doubleStepRegion].
  unfold doubleStep_of, doubleStepRegion_of.
  destruct (doubleStep v); cbn; [|reflexivity].
  destruct (doubleStepRegion v) as [w b]; cbn. unfold nonzero.
  destruct (N.eqb_spec w 0), (N.eqb_spec b 0); subst; reflexivity.
Qed.

Lemma doubleStep_of_conclude v : doubleStep_of (conclude v) = doubleStep_of v.
Proof.
  unfold doubleStep_of at 1. rewrite doubleStepRegion_of_conclude.
  cbn [doubleStep conclude]. unfold doubleStep_of.
  destruct (negb (nonzero (sel (doubleStepRegion_of v) WHITE))
            && negb (nonzero (sel (doubleStepRegion_of v) BLACK))); reflexivity.
Qed.

Lemma restrictedMobility_conclude v :
  restrictedMobility (conclude v) = restrictedMobility v.
Proof. reflexivity. Qed.

Lemma nnueKing_of_conclude v : nnueKing_of (conclude v) = nnueKing_of v.
Proof. reflexivity. Qed.

Lemma nnueSquares_of_conclude v : nnueSquares_of (conclude v) = nnueSquares_of v.
Proof. reflexivity. Qed.

Lemma nnuePockets_of_conclude v : nnuePockets_of (conclude v) = nnuePockets_of v.
Proof. reflexivity. Qed.

Lemma nnueNonDropPieceIndices_of_conclude v :
  nnueNonDropPieceIndices_of (conclude v) = nnueNonDropPieceIndices_of v.
Proof.
  unfold nnueNonDropPieceIndices_of.
  rewrite nnueKing_of_conclude, nnueSquares_of_conclude. reflexivity.
Qed.

Lemma nnuePieceIndices_of_conclude v :
  nnuePieceIndices_of (conclude v) = nnuePieceIndices_of v.
Proof.
  unfold nnuePieceIndices_of.
  rewrite nnueNonDropPieceIndices_of_conclude, nnueKing_of_conclude,
    nnuePockets_of_conclude. reflexivity.
Qed.

Lemma index_tables_from_conclude v t :
  index_tables_from (conclude v) t = index_tables_from v t.
Proof.
  unfold index_tables_from.
  rewrite nnueKing_of_conclude, nnueSquares_of_conclude, nnuePockets_of_conclude,
    nnueNonDropPieceIndices_of_conclude. reflexivity.
Qed.

Lemma king_allowed_conclude v s : king_allowed (conclude v) s = king_allowed v s.
Proof.
  unfold king_allowed. rewrite nnueKing_of_conclude. reflexivity.
Qed.

Lemma king_square_body_conclude v st s :
  king_square_body (conclude v) st s = king_square_body v st s.
Proof.
  unfold king_square_body.
  rewrite king_allowed_conclude, nnuePieceIndices_of_conclude. reflexivity.
Qed.

Lemma king_squares_from_conclude v t :
  king_squares_from (conclude v) t = king_squares_from v t.
Proof.
  unfold king_squares_from.
  rewrite nnueKing_of_conclude, nnueSquares_of_conclude, nnuePieceIndices_of_conclude.
  destruct (nonzero (nnueKing_of v) && (nnueSquares_of v <=? SQUARE_NB)); [|reflexivity].
  apply foldl_pointwise. intros st s. apply king_square_body_conclude.
Qed.

(** The offset loop is a fixed sequence of stores. *)
Lemma index_body_puts k sq po nd pt i c :
  exists ws, forall t, index_body k sq po nd pt i t c = puts tables_put ws t.
Proof.
  eexists [((true, c, make_piece c pt), _); ((true, c, make_piece (flip c) pt), _);
           ((false, c, make_piece c pt), _); ((false, c, make_piece (flip c) pt), _)].
  intros [t1 t2]. reflexivity.
Qed.

Lemma index_loop_puts k sq po nd fuel : forall ps i,
  exists ws, forall t, index_loop k sq po nd fuel ps i t = puts tables_put ws t.
Proof.
  induction fuel as [|fuel IH]; intros ps i.
  - exists []. reflexivity.
  - cbn [index_loop]. destruct (nonzero ps); [|exists []; reflexivity].
    set (pt := lsb _).
    destruct (index_body_puts k sq po nd pt i WHITE) as [w1 H1].
    destruct (index_body_puts k sq po nd pt i BLACK) as [w2 H2].
    destruct (IH (N.lxor ps (piece_set pt)) (int (i + 1))) as [w3 H3].
    exists (w1 ++ w2 ++ w3). intros t.
    cbn [foldl]. rewrite H3, H2, H1, !puts_app. reflexivity.
Qed.

Lemma index_tables_from_idem v t :
  index_tables_from v (index_tables_from v t) = index_tables_from v t.
Proof.
  unfold index_tables_from.
  destruct (index_loop_puts (nnueKing_of v) (nnueSquares_of v) (nnuePockets_of v)
              (nnueNonDropPieceIndices_of v) (set_fuel (pieceTypes v))
              (pieceTypes v) 0) as [ws H].
  rewrite !H. apply (puts_idem tables_look tables_put tables_look_put tables_look_ext).
Qed.

(** So is the loop over the squares; the counter does not depend on the
    table. *)
Lemma king_square_fold_puts v squares : forall k0,
  exists ws kf, forall tbl,
    foldl (king_square_body v) (tbl, k0) squares
    = (puts (fun k x (m : gmap Z Z) => <[k := x]> m) ws tbl, kf).
Proof.
  induction squares as [|s squares IH]; intros k0.
  - exists [], k0. reflexivity.
  - cbn [foldl]. unfold king_square_body at 2.
    destruct (king_allowed v s).
    + destruct (IH (int (k0 + 1))) as (ws & kf & H).
      exists ((s, int (k0 * nnuePieceIndices_of v)) :: ws), kf.
      intros tbl. rewrite H. reflexivity.
    + destruct (IH k0) as (ws & kf & H). exists ws, kf. exact H.
Qed.

Lemma king_squares_from_puts v :
  exists ws kf, forall tbl,
    king_squares_from v tbl = (puts (fun k x (m : gmap Z Z) => <[k := x]> m) ws tbl, kf).
Proof.
  unfold king_squares_from.
  destruct (nonzero (nnueKing_of v) && (nnueSquares_of v <=? SQUARE_NB)).
  - apply king_square_fold_puts.
  - exists [(SQ_A1, int (0 * nnuePieceIndices_of v))], (int (0 + 1)). reflexivity.
Qed.

Lemma king_squares_from_idem v tbl :
  king_squares_from v (fst (king_squares_from v tbl)) = king_squares_from v tbl.
Proof.
  destruct (king_squares_from_puts v) as (ws & kf & H).
  rewrite !H. cbn [fst]. f_equal.
  apply (puts_idem (fun (m : gmap Z Z) k => m !! k) _ zmap_look_put).
  intros m1 m2. apply map_eq.
Qed.

(** C3. [conclude] is idempotent: a second run on a concluded ruleset,
    with no raw member changed in between, returns the very same
    ruleset, so each derived member ([fastAttacks], [fastAttacks2],
    [nnueKing], [pieceSquareIndex], [pieceHandIndex], [kingSquareIndex],
    [nnueDimensions], [nnueMaxPieces], [endgameEval],
    [shogiStylePromotions], [connect_directions], [nnueUsePockets]) keeps
    the value the first run gave it. *)
Theorem conclude_idempotent (v : Variant) : conclude (conclude v) = conclude v.
Proof.
  assert (Ht : index_tables_of (conclude v) = index_tables_of v).
  { unfold index_tables_of. rewrite index_tables_from_conclude.
    cbn [conclude pieceSquareIndex pieceHandIndex].
    rewrite <- surjective_pairing. apply index_tables_from_idem. }
  assert (Hk : king_squares_of (conclude v) = king_squares_of v).
  { unfold king_squares_of. rewrite king_squares_from_conclude.
    cbn [conclude kingSquareIndex]. apply king_squares_from_idem. }
  assert (Hd : nnueDimensions_of (conclude v) = nnueDimensions_of v).
  { unfold nnueDimensions_of. rewrite Hk, nnuePieceIndices_of_conclude. reflexivity. }
  unfold conclude at 1. rewrite Ht, Hk, Hd.
  rewrite doubleStep_of_conclude, doubleStepRegion_of_conclude.
  reflexivity.
Qed.

End ConcludeFacts.

Lemma has_piece_testbit ps pt : has_piece ps pt = N.testbit ps pt.
Proof.
  unfold has_piece, piece_set. rewrite N.shiftl_1_l.
  destruct (N.testbit ps pt) eqn:Hb.
  - destruct (N.eqb_spec (N.land ps (2 ^ pt)) 0) as [H0|]; [|reflexivity].
    exfalso. assert (Hl : N.testbit (N.land ps (2 ^ pt)) pt = true).
    { rewrite N.land_spec, Hb, N.pow2_bits_true. reflexivity. }
    rewrite H0, N.bits_0 in Hl. discriminate.
  - replace (N.land ps (2 ^ pt)) with 0%N; [reflexivity|].
    symmetry. apply N.bits_inj_0. intros n.
    rewrite N.land_spec, N.pow2_bits_eqb.
    destruct (N.eqb_spec pt n) as [->|]; [rewrite Hb; reflexivity|].
    apply andb_false_r.
Qed.

Lemma count_char_occ c s :
  count_char c s = Z.of_nat (count_occ ascii_dec (list_ascii_of_string s) c).
Proof.
  induction s as [|a s IH]; [reflexivity|].
  cbn [count_char list_ascii_of_string count_occ]. rewrite IH.
  destruct (Ascii.eqb_spec a c) as [->|Hne].
  - destruct (ascii_dec c c); [lia|congruence].
  - destruct (ascii_dec a c); [congruence|lia].
Qed.

Lemma existsb_eqb_In (a : N) l : existsb (N.eqb a) l = true <-> In a l.
Proof.
  rewrite existsb_exists. split.
  - intros (x & Hx & Heq). apply N.eqb_eq in Heq. subst. exact Hx.
  - intros H. exists a. split; [exact H|apply N.eqb_refl].
Qed.

Section Claims12.
Context `{T : Types}.

(** C4. After [conclude], [doubleStep] is false exactly when both
    double-step regions are empty; a ruleset that enters with
    [doubleStep] disabled leaves with both regions cleared, and one that
    enters with both regions empty leaves with [doubleStep] false. *)
Theorem conclude_doubleStep_consistent (v : Variant) :
  (doubleStep (conclude v) = false <->
   sel (doubleStepRegion (conclude v)) WHITE = 0%N
   /\ sel (doubleStepRegion (conclude v)) BLACK = 0%N)
  /\ (doubleStep v = false ->
      sel (doubleStepRegion (conclude v)) WHITE = 0%N
      /\ sel (doubleStepRegion (conclude v)) BLACK = 0%N)
  /\ (sel (doubleStepRegion v) WHITE = 0%N ->
      sel (doubleStepRegion v) BLACK = 0%N ->
      doubleStep (conclude v) = false).
Proof.
  cbn [conclude doubleStep doubleStepRegion].
  unfold doubleStep_of, doubleStepRegion_of, nonzero.
  destruct (doubleStepRegion v) as [w b]; cbn [sel of_white of_black].
  destruct (doubleStep v); cbn [negb sel of_white of_black];
    destruct (N.eqb_spec w 0), (N.eqb_spec b 0); cbn;
    repeat split; intros; subst; try tauto; try congruence; try discriminate.
Qed.

(** C7. The endgame-eligibility flag is true only if no disqualifier
    holds: the extinction value is unset, the checkmate value is the
    canonical mate value, the stalemate value is a draw, and material
    counting, flag regions, forced capture, check counting, the makpong
    rule, connect-N, blast on capture, petrify on capture, captures to
    hand, two boards and restricted mobility are all off, and the king
    is the plain king. Conversely the flag is true when none holds, so
    switching on any single disqualifier makes it false. *)
Theorem endgameEval_disqualifiers (v : Variant) :
  endgameEval (conclude v) = true <->
  extinctionValue v = VALUE_NONE
  /\ checkmateValue v = - VALUE_MATE
  /\ stalemateValue v = VALUE_DRAW
  /\ materialCounting v = 0
  /\ sel (flagRegion v) WHITE = 0%N
  /\ sel (flagRegion v) BLACK = 0%N
  /\ mustCapture v = false
  /\ checkCounting v = false
  /\ makpongRule v = false
  /\ connectN v = 0
  /\ blastOnCapture v = false
  /\ petrifyOnCaptureTypes v = 0%N
  /\ capturesToHand v = false
  /\ twoBoards v = false
  /\ restrictedMobility v = false
  /\ kingType v = KING.
Proof.
  cbn [conclude endgameEval]. unfold endgameEval_of, nonzero.
  rewrite !andb_true_iff, !negb_true_iff, !negb_false_iff, orb_false_iff,
    !negb_false_iff, !Z.eqb_eq, !N.eqb_eq.
  tauto.
Qed.

(** The three stages of the choice, on the preferred anchor. *)
Lemma nnueKing_of_staged (v : Variant) :
  nnueKing_of v
  = let a := preferred_anchor v in
    if (a =? NO_PIECE_TYPE)%N then NO_PIECE_TYPE
    else if N.testbit (sel (promotionPawnTypes v) WHITE) a
            || N.testbit (sel (promotionPawnTypes v) BLACK) a
            || (N.testbit (sel (promotionPieceTypes v) WHITE) a
                || N.testbit (sel (promotionPieceTypes v) BLACK) a)
            || existsb (N.eqb a) (promotedPieceType v)
         then NO_PIECE_TYPE
    else if negb (Z.of_nat (occurrences v WHITE a) =? 1)
            || negb (Z.of_nat (occurrences v BLACK a) =? 1)
         then NO_PIECE_TYPE
    else a.
Proof.
  unfold nnueKing_of, occurrences.
  rewrite !has_piece_testbit, !N.lor_spec, !count_char_occ.
  fold (preferred_anchor v). cbv zeta.
  destruct (N.eqb_spec (preferred_anchor v) NO_PIECE_TYPE) as [Ha|Ha]; cbn [negb].
  - rewrite Ha, N.eqb_refl. reflexivity.
  - destruct (_ || _ || existsb _ _); cbn [negb].
    + rewrite N.eqb_refl. reflexivity.
    + destruct (N.eqb_spec (preferred_anchor v) NO_PIECE_TYPE);
        [contradiction|reflexivity].
Qed.

(** C5. The anchor chosen by [conclude] is the king when the king is in
    play, else the commoner when the extinction piece count is zero and
    the commoner is an extinction piece type, else none; and it falls
    back to none when it is a promotion pawn type or a promotion piece
    type of either colour, or the promoted form of some type, or when
    its letter does not occur exactly once per colour in the board part
    of the start position. *)
Theorem nnueKing_selection (v : Variant) :
  (anchor_rejected v (preferred_anchor v) -> nnueKing (conclude v) = NO_PIECE_TYPE)
  /\ (~ anchor_rejected v (preferred_anchor v) ->
      nnueKing (conclude v) = preferred_anchor v).
Proof.
  cbn [conclude nnueKing]. rewrite nnueKing_of_staged. cbv zeta.
  unfold anchor_rejected.
  set (a := preferred_anchor v).
  set (nW := occurrences v WHITE a). set (nB := occurrences v BLACK a).
  destruct (N.eqb_spec a NO_PIECE_TYPE) as [Ha|Ha]; [rewrite Ha; tauto|].
  destruct (N.testbit (sel (promotionPawnTypes v) WHITE) a); [cbn; tauto|].
  destruct (N.testbit (sel (promotionPawnTypes v) BLACK) a); [cbn; tauto|].
  destruct (N.testbit (sel (promotionPieceTypes v) WHITE) a); [cbn; tauto|].
  destruct (N.testbit (sel (promotionPieceTypes v) BLACK) a); [cbn; tauto|].
  cbn [orb].
  destruct (existsb (N.eqb a) (promotedPieceType v)) eqn:E5.
  - apply existsb_eqb_In in E5. tauto.
  - assert (~ In a (promotedPieceType v)).
    { intros Hin. apply existsb_eqb_In in Hin. congruence. }
    destruct (Z.eqb_spec (Z.of_nat nW) 1), (Z.eqb_spec (Z.of_nat nB) 1); cbn;
      split; intros; try reflexivity; try lia;
      intuition (try discriminate; try lia).
Qed.

End Claims12.

(** * Bit sets *)

Lemma popcount_pos_pos p : 0 < popcount_pos p.
Proof. induction p; cbn [popcount_pos]; lia. Qed.

Lemma popcount_nonneg n : 0 <= popcount n.
Proof. destruct n; cbn; [lia|]. pose proof (popcount_pos_pos p). lia. Qed.

Lemma popcount_zero n : popcount n = 0 -> n = 0%N.
Proof. destruct n; [reflexivity|]. cbn. pose proof (popcount_pos_pos p). lia. Qed.

Lemma popcount_double n : popcount (N.double n) = popcount n.
Proof. destruct n; reflexivity. Qed.

Lemma popcount_succ_double n : popcount (N.succ_double n) = 1 + popcount n.
Proof. destruct n; reflexivity. Qed.

Lemma popcount_pos_size p : popcount_pos p <= Z.pos (Pos.size p).
Proof. induction p; cbn [popcount_pos Pos.size]; lia. Qed.

Lemma popcount_size n : popcount n <= Z.of_N (N.size n).
Proof. destruct n; cbn; [lia|]. apply popcount_pos_size. Qed.

Lemma popcount_fuel ps : popcount ps <= Z.of_nat (set_fuel ps).
Proof. unfold set_fuel. rewrite N_nat_Z. apply popcount_size. Qed.

Lemma testbit_ctz p : N.testbit (Npos p) (ctz p) = true.
Proof.
  induction p as [p IH|p IH|]; cbn [ctz]; try reflexivity.
  rewrite N.testbit_succ_r_div2 by apply N.le_0_l. exact IH.
Qed.

Lemma testbit_lsb ps : ps <> 0%N -> N.testbit ps (lsb ps) = true.
Proof. destruct ps; [congruence|]. intros _. apply testbit_ctz. Qed.

Lemma popcount_clear a n :
  N.testbit a n = true -> popcount (N.ldiff a (N.shiftl 1 n)) = popcount a - 1.
Proof.
  revert a. induction n as [|n IH] using N.peano_ind; intros a Ha.
  - change (N.shiftl 1 0) with 1%N.
    destruct a as [|[p|p|]]; try discriminate; cbn; lia.
  - rewrite N.shiftl_succ_r.
    rewrite N.testbit_succ_r_div2 in Ha by apply N.le_0_l.
    specialize (IH _ Ha).
    assert (Hq : N.shiftl 1 n <> 0%N).
    { rewrite N.shiftl_1_l. apply N.pow_nonzero. discriminate. }
    destruct (N.shiftl 1 n) as [|q]; [congruence|].
    destruct a as [|[p|p|]]; cbn [N.div2] in *.
    + discriminate.
    + change (N.ldiff (N.pos p~1) (N.double (N.pos q)))
        with (N.succ_double (N.ldiff (N.pos p) (N.pos q))).
      rewrite popcount_succ_double, IH. cbn. lia.
    + change (N.ldiff (N.pos p~0) (N.double (N.pos q)))
        with (N.double (N.ldiff (N.pos p) (N.pos q))).
      rewrite popcount_double, IH. cbn. lia.
    + discriminate.
Qed.

Lemma lxor_set_bit a n :
  N.testbit a n = true -> N.lxor a (piece_set n) = N.ldiff a (N.shiftl 1 n).
Proof.
  intros Ha. unfold piece_set. apply N.bits_inj. intros m.
  rewrite N.lxor_spec, N.ldiff_spec, N.shiftl_1_l, N.pow2_bits_eqb.
  destruct (N.eqb_spec n m) as [->|]; [rewrite Ha; reflexivity|].
  destruct (N.testbit a m); reflexivity.
Qed.

Lemma ldiff_piece_nonzero ps k :
  ps <> 0%N -> ps <> piece_set k -> N.ldiff ps (piece_set k) <> 0%N.
Proof.
  intros H0 Hk Hd. unfold piece_set in *. rewrite N.shiftl_1_l in *.
  assert (Hb : forall m, m <> k -> N.testbit ps m = false).
  { intros m Hm. assert (N.testbit (N.ldiff ps (2 ^ k)) m = false)
      by (rewrite Hd; apply N.bits_0).
    rewrite N.ldiff_spec, N.pow2_bits_false in H by congruence.
    rewrite andb_true_r in H. exact H. }
  destruct (N.testbit ps k) eqn:Ek.
  - apply Hk. apply N.bits_inj. intros m. rewrite N.pow2_bits_eqb.
    destruct (N.eqb_spec k m) as [<-|]; [exact Ek|]. apply Hb. congruence.
  - apply H0. apply N.bits_inj_0. intros m.
    destruct (N.eq_dec m k) as [->|]; [exact Ek|]. apply Hb. assumption.
Qed.

Lemma testbit_ldiff_sub a b n : N.testbit (N.ldiff a b) n = true -> N.testbit a n = true.
Proof. rewrite N.ldiff_spec. intros H. apply andb_true_iff in H. tauto. Qed.

(** The piece picked by a round of the offset loop belongs to the set. *)
Lemma picked_in_set ps k :
  ps <> 0%N ->
  N.testbit ps (lsb (if negb (ps =? piece_set k)%N
                     then N.ldiff ps (piece_set k) else ps)) = true.
Proof.
  intros H0. destruct (N.eqb_spec ps (piece_set k)) as [He|Hne]; cbn [negb].
  - apply testbit_lsb. exact H0.
  - apply (testbit_ldiff_sub _ (piece_set k)). apply testbit_lsb.
    apply ldiff_piece_nonzero; assumption.
Qed.

Lemma lsb_piece_set k : lsb (piece_set k) = k.
Proof.
  unfold piece_set. induction k as [|k IH] using N.peano_ind; [reflexivity|].
  rewrite N.shiftl_succ_r.
  assert (Hq : N.shiftl 1 k <> 0%N).
  { rewrite N.shiftl_1_l. apply N.pow_nonzero. discriminate. }
  destruct (N.shiftl 1 k) as [|q]; [congruence|].
  cbn [N.double lsb ctz] in *. rewrite IH. reflexivity.
Qed.

(** Line 207: the assertion of the offset loop holds in every round.
    When the piece picked is the NNUE king, the set is empty once the
    piece is removed. *)
Lemma index_loop_assertion ps k :
  ps <> 0%N ->
  let pt := lsb (if negb (ps =? piece_set k)%N
                 then N.ldiff ps (piece_set k) else ps) in
  pt = k -> N.lxor ps (piece_set pt) = 0%N.
Proof.
  intros H0 pt. subst pt.
  destruct (N.eqb_spec ps (piece_set k)) as [->|Hne]; cbn [negb].
  - rewrite lsb_piece_set. intros _. apply N.lxor_nilpotent.
  - intros Hk. exfalso.
    pose proof (testbit_lsb _ (ldiff_piece_nonzero ps k H0 Hne)) as Hb.
    rewrite Hk in Hb. unfold piece_set in Hb.
    rewrite N.ldiff_spec, N.shiftl_1_l, N.pow2_bits_true, andb_false_r in Hb.
    discriminate.
Qed.

Lemma nonzero_false ps : nonzero ps = false <-> ps = 0%N.
Proof. unfold nonzero. rewrite negb_false_iff. apply N.eqb_eq. Qed.

Lemma nonzero_true ps : nonzero ps = true <-> ps <> 0%N.
Proof. unfold nonzero. rewrite negb_true_iff. apply N.eqb_neq. Qed.

Section Fuel.
Context `{T : Types}.

(** Both loops over a piece set stop by their own condition within the
    rounds they are granted: more rounds change nothing. *)
Lemma index_loop_fuel k sq po nd fuel : forall ps i t extra,
  popcount ps <= Z.of_nat fuel ->
  index_loop k sq po nd (fuel + extra) ps i t = index_loop k sq po nd fuel ps i t.
Proof.
  induction fuel as [|fuel IH]; intros ps i t extra Hp.
  - assert (ps = 0%N) by (apply popcount_zero; pose proof (popcount_nonneg ps); lia).
    subst ps. destruct extra; reflexivity.
  - cbn [Nat.add index_loop]. destruct (nonzero ps) eqn:Hnz; [|reflexivity].
    apply nonzero_true in Hnz. apply IH.
    rewrite lxor_set_bit by (apply picked_in_set; exact Hnz).
    rewrite popcount_clear by (apply picked_in_set; exact Hnz). lia.
Qed.

Lemma restricted_loop_fuel mob fuel : forall ps r extra,
  popcount ps <= Z.of_nat fuel ->
  restricted_loop mob (fuel + extra) ps r = restricted_loop mob fuel ps r.
Proof.
  induction fuel as [|fuel IH]; intros ps r extra Hp.
  - assert (ps = 0%N) by (apply popcount_zero; pose proof (popcount_nonneg ps); lia).
    subst ps. destruct extra; [reflexivity|]. cbn. rewrite andb_false_r. reflexivity.
  - cbn [Nat.add restricted_loop]. destruct (negb r && nonzero ps) eqn:Hc; [|reflexivity].
    apply andb_true_iff in Hc. destruct Hc as [_ Hnz]. apply nonzero_true in Hnz.
    unfold pop_lsb. apply IH. unfold N.clearbit.
    rewrite popcount_clear by (apply testbit_lsb; exact Hnz). lia.
Qed.

(** What the first loop computes. *)
Lemma restricted_loop_spec mob fuel : forall ps,
  popcount ps <= Z.of_nat fuel ->
  restricted_loop mob fuel ps false = true <->
  exists pt, N.testbit ps pt = true
             /\ (mob WHITE pt <> 0%N \/ mob BLACK pt <> 0%N).
Proof.
  assert (Htrue : forall f ps, restricted_loop mob f ps true = true).
  { intros [|f] ps; reflexivity. }
  induction fuel as [|fuel IH]; intros ps Hp.
  - assert (ps = 0%N) by (apply popcount_zero; pose proof (popcount_nonneg ps); lia).
    subst ps. split; [discriminate|]. intros (pt & Hb & _).
    rewrite N.bits_0 in Hb. discriminate.
  - cbn [restricted_loop negb andb]. destruct (nonzero ps) eqn:Hnz.
    + apply nonzero_true in Hnz. unfold pop_lsb.
      pose proof (testbit_lsb ps Hnz) as Hl.
      destruct (nonzero (mob WHITE (lsb ps)) || nonzero (mob BLACK (lsb ps))) eqn:Hm.
      * rewrite Htrue. split; [|reflexivity]. intros _. exists (lsb ps).
        split; [exact Hl|]. apply orb_true_iff in Hm.
        rewrite !nonzero_true in Hm. exact Hm.
      * apply orb_false_iff in Hm. rewrite !nonzero_false in Hm.
        rewrite IH.
        2:{ unfold N.clearbit. rewrite popcount_clear by exact Hl. lia. }
        split; intros (pt & Hb & Hr); exists pt; (split; [|exact Hr]).
        -- rewrite N.clearbit_eqb in Hb. apply andb_true_iff in Hb. tauto.
        -- rewrite N.clearbit_eqb, Hb. cbn.
           destruct (N.eqb_spec (lsb ps) pt) as [<-|]; [|reflexivity].
           destruct Hm. destruct Hr; congruence.
    + apply nonzero_false in Hnz. subst ps. split; [discriminate|].
      intros (pt & Hb & _). rewrite N.bits_0 in Hb. discriminate.
Qed.

Lemma restrictedMobility_spec v :
  restrictedMobility v = true <->
  exists pt, N.testbit (pieceTypes v) pt = true
             /\ (mobilityRegion v WHITE pt <> 0%N \/ mobilityRegion v BLACK pt <> 0%N).
Proof. apply restricted_loop_spec, popcount_fuel. Qed.

End Fuel.

(** * 32-bit arithmetic *)

Ltac int_consts :=
  change (2 ^ 31) with 2147483648 in *; change (2 ^ 32) with 4294967296 in *.

Lemma int_small z : - 2147483648 <= z < 2147483648 -> int z = z.
Proof. intros H. unfold int. int_consts. rewrite Z.mod_small by lia. lia. Qed.

Lemma int_int_add a b : int (int a + b) = int (a + b).
Proof.
  unfold int. int_consts.
  replace ((a + 2147483648) mod 4294967296 - 2147483648 + b + 2147483648)
    with ((a + 2147483648) mod 4294967296 + b) by lia.
  rewrite Z.add_mod_idemp_l by lia. f_equal. f_equal. lia.
Qed.

Lemma int_idem a : int (int a) = int a.
Proof. pose proof (int_int_add a 0) as H. rewrite !Z.add_0_r in H. exact H. Qed.

(** * The scans of the start position *)

Lemma substr0_None s : substr0 s None = s.
Proof. destruct s; reflexivity. Qed.

Lemma substr0_find_before s : substr0 s (find_char " " s) = before_space s.
Proof.
  induction s as [|c s IH]; [reflexivity|].
  cbn [find_char before_space before_char].
  destruct (Ascii.eqb c " "); [reflexivity|].
  fold (before_space s). rewrite <- IH.
  destruct (find_char " " s); [reflexivity|].
  rewrite !substr0_None. reflexivity.
Qed.

Lemma max_pieces_scan_count p q s : forall n,
  max_pieces_scan p q s (int n)
  = int (n + recognised_count p q (before_whitespace s)).
Proof.
  induction s as [|c s IH]; intros n.
  - cbn [max_pieces_scan before_whitespace before_char recognised_count].
    rewrite Z.add_0_r. reflexivity.
  - cbn [max_pieces_scan before_whitespace before_char recognised_count].
    fold (before_whitespace s).
    destruct (isspace c); [cbn [recognised_count]; rewrite Z.add_0_r; reflexivity|].
    cbn [recognised_count].
    destruct (contains p c || contains q c).
    + rewrite int_int_add, IH. apply (f_equal int). lia.
    + rewrite IH. apply (f_equal int). lia.
Qed.

Lemma append_nil_l s : "" +:+ s = s.
Proof. reflexivity. Qed.

Lemma append_cons c a b : String c a +:+ b = String c (a +:+ b).
Proof. reflexivity. Qed.

Lemma before_char_app stop b x rest :
  forallb (fun c => negb (stop c)) (list_ascii_of_string b) = true ->
  stop x = true ->
  before_char stop (b +:+ String x rest) = b.
Proof.
  intros Hb Hx. induction b as [|c b IH].
  - rewrite append_nil_l. cbn [before_char]. rewrite Hx. reflexivity.
  - cbn [list_ascii_of_string forallb] in Hb.
    apply andb_true_iff in Hb. destruct Hb as [Hc Hb].
    apply negb_true_iff in Hc.
    rewrite append_cons. cbn [before_char]. rewrite Hc, IH by exact Hb. reflexivity.
Qed.

Lemma no_whitespace_no_space b :
  no_whitespace b = true ->
  forallb (fun c => negb (Ascii.eqb c " ")) (list_ascii_of_string b) = true.
Proof.
  unfold no_whitespace. induction b as [|c b IH]; cbn; [reflexivity|].
  intros H. apply andb_true_iff in H. destruct H as [Hc Hb].
  rewrite IH by exact Hb. rewrite andb_true_r.
  destruct (Ascii.eqb_spec c " ") as [->|]; [discriminate|reflexivity].
Qed.

Lemma count_char_app ch a b :
  count_char ch (a +:+ b) = count_char ch a + count_char ch b.
Proof.
  induction a as [|c a IH]; [reflexivity|].
  rewrite append_cons. cbn [count_char]. rewrite IH. lia.
Qed.

Lemma count_char_nonneg ch a : 0 <= count_char ch a.
Proof. induction a as [|c a IH]; cbn; [lia|]. destruct (Ascii.eqb c ch); lia. Qed.

Lemma recognised_count_app p q a b :
  recognised_count p q (a +:+ b) = recognised_count p q a + recognised_count p q b.
Proof.
  induction a as [|c a IH]; [reflexivity|].
  rewrite append_cons. cbn [recognised_count]. rewrite IH. lia.
Qed.

Section Scans.
Context `{T : Types}.

Lemma nnueKing_of_count_rejected v c :
  count_char (char_at (pieceToChar v) (make_piece c (preferred_anchor v))) (fenBoard v) <> 1 ->
  nnueKing (conclude v) = NO_PIECE_TYPE.
Proof.
  intros Hc. cbn [conclude nnueKing]. rewrite nnueKing_of_staged. cbv zeta.
  rewrite count_char_occ in Hc. fold (occurrences v c (preferred_anchor v)) in Hc.
  destruct (_ =? NO_PIECE_TYPE)%N; [reflexivity|].
  destruct (_ || _ || existsb _ _); [reflexivity|].
  destruct c.
  - destruct (Z.eqb_spec (Z.of_nat (occurrences v WHITE (preferred_anchor v))) 1);
      [contradiction|reflexivity].
  - destruct (Z.eqb_spec (Z.of_nat (occurrences v BLACK (preferred_anchor v))) 1);
      [contradiction|]. rewrite orb_true_r. reflexivity.
Qed.

(** C10 (amended). The uniqueness count of the anchor reads [startFen]
    up to its first space character, whatever other whitespace comes
    before it: the anchor is the same for two start positions with the
    same text before the first space. The count of pieces reads it up
    to its first whitespace character. When a bracketed pocket precedes
    the space that ends the board part, both scans read the pocket: an
    anchor whose letter stands on the board and in the pocket is
    rejected, and the pocket letters add to the maximum piece count. *)
Theorem start_position_scans (v : Variant) :
  fenBoard v = before_space (startFen v)
  /\ (forall fen, before_space fen = before_space (startFen v) ->
      nnueKing (conclude (with_startFen v fen)) = nnueKing (conclude v))
  /\ (forall fen, before_whitespace fen = before_whitespace (startFen v) ->
      nnueMaxPieces (conclude (with_startFen v fen)) = nnueMaxPieces (conclude v))
  /\ nnueMaxPieces (conclude v)
     = (let n := int (recognised_count (pieceToChar v) (pieceToCharSynonyms v)
                        (before_whitespace (startFen v))) in
        if twoBoards v then int (n * 2) else n)
  /\ forall board pocket rest,
       startFen v = (board +:+ "[" +:+ pocket +:+ "]") +:+ String " " rest ->
       no_whitespace (board +:+ "[" +:+ pocket +:+ "]") = true ->
       before_space (startFen v) = board +:+ "[" +:+ pocket +:+ "]"
       /\ before_whitespace (startFen v) = board +:+ "[" +:+ pocket +:+ "]"
       /\ (forall c,
             let letter :=
               char_at (pieceToChar v) (make_piece c (preferred_anchor v)) in
             1 <= count_char letter board -> 1 <= count_char letter pocket ->
             nnueKing (conclude v) = NO_PIECE_TYPE)
       /\ recognised_count (pieceToChar v) (pieceToCharSynonyms v)
            (before_whitespace (startFen v))
          = recognised_count (pieceToChar v) (pieceToCharSynonyms v) board
            + recognised_count (pieceToChar v) (pieceToCharSynonyms v) "["
            + recognised_count (pieceToChar v) (pieceToCharSynonyms v) pocket
            + recognised_count (pieceToChar v) (pieceToCharSynonyms v) "]".
Proof.
  assert (Hfb : fenBoard v = before_space (startFen v))
    by apply substr0_find_before.
  assert (Hmax : forall w, nnueMaxPieces (conclude w)
            = (let n := int (recognised_count (pieceToChar w) (pieceToCharSynonyms w)
                               (before_whitespace (startFen w))) in
               if twoBoards w then int (n * 2) else n)).
  { intros w. cbn [conclude nnueMaxPieces]. unfold nnueMaxPieces_of.
    change 0 with (int 0) at 1 2.
    rewrite max_pieces_scan_count. reflexivity. }
  split; [exact Hfb|]. split; [|split; [|split; [apply Hmax|]]].
  - intros fen Hfen. cbn [conclude nnueKing]. unfold nnueKing_of.
    replace (fenBoard (with_startFen v fen)) with (fenBoard v); [reflexivity|].
    rewrite Hfb. unfold fenBoard. rewrite substr0_find_before. symmetry. exact Hfen.
  - intros fen Hfen. rewrite !Hmax. cbn [with_startFen startFen pieceToChar
      pieceToCharSynonyms twoBoards]. rewrite Hfen. reflexivity.
  - intros board pocket rest Hfen Hws.
    assert (Hsp : before_space (startFen v) = board +:+ "[" +:+ pocket +:+ "]").
    { rewrite Hfen. apply before_char_app; [|reflexivity].
      apply no_whitespace_no_space, Hws. }
    assert (Hw : before_whitespace (startFen v) = board +:+ "[" +:+ pocket +:+ "]").
    { rewrite Hfen. apply before_char_app; [exact Hws|reflexivity]. }
    split; [exact Hsp|]. split; [exact Hw|]. split.
    + intros c letter Hb Hp. apply (nnueKing_of_count_rejected v c).
      fold letter. rewrite Hfb, Hsp, !count_char_app.
      pose proof (count_char_nonneg letter "[").
      pose proof (count_char_nonneg letter "]"). lia.
    + rewrite Hw, !recognised_count_app. lia.
Qed.

End Scans.

Lemma bitset64_count_bounds x : 0 <= bitset64_count x <= 64.
Proof.
  unfold bitset64_count. split; [apply popcount_nonneg|].
  set (n := (x mod 2 ^ 64)%N).
  assert (Hn : (n < 2 ^ 64)%N) by (apply N.mod_lt; discriminate).
  pose proof (popcount_size n) as Hp.
  assert (Hs : (N.size n <= 64)%N).
  { destruct (N.le_gt_cases (N.size n) 64) as [|Hgt]; [assumption|exfalso].
    pose proof (N.size_le n) as Hle.
    assert (H65 : (2 ^ 65 <= 2 ^ N.size n)%N)
      by (apply N.pow_le_mono_r; [discriminate|lia]).
    change (2 ^ 65)%N with 36893488147419103232%N in H65.
    change (2 ^ 64)%N with 18446744073709551616%N in Hn.
    rewrite N.succ_double_spec in Hle. lia. }
  lia.
Qed.

Section KingSquares.
Context `{T : Types}.

Lemma allowed_count_bounds v a m : 0 <= allowed_count v a m <= Z.of_nat m.
Proof.
  induction m as [|m IH]; cbn [allowed_count]; [lia|].
  destruct (king_allowed v (a + Z.of_nat m)); lia.
Qed.

Lemma allowed_count_mono v a m1 m2 :
  (m1 <= m2)%nat -> allowed_count v a m1 <= allowed_count v a m2.
Proof.
  induction 1 as [|m2 _ IH]; [lia|]. cbn [allowed_count].
  destruct (king_allowed v (a + Z.of_nat m2)); lia.
Qed.

Lemma allowed_count_strict v a m1 m2 :
  (m1 < m2)%nat -> king_allowed v (a + Z.of_nat m1) = true ->
  allowed_count v a m1 < allowed_count v a m2.
Proof.
  intros Hlt Ha. pose proof (allowed_count_mono v a (S m1) m2 Hlt) as Hm.
  cbn [allowed_count] in Hm. rewrite Ha in Hm. lia.
Qed.

Lemma allowed_count_onto v a m k :
  0 <= k < allowed_count v a m ->
  exists j, (j < m)%nat /\ king_allowed v (a + Z.of_nat j) = true
            /\ allowed_count v a j = k.
Proof.
  induction m as [|m IH]; cbn [allowed_count]; [lia|]. intros Hk.
  destruct (Z_lt_dec k (allowed_count v a m)) as [Hlt|Hge].
  - destruct IH as (j & Hj & Ha & Hc); [lia|]. exists j. split; [lia|]. tauto.
  - destruct (king_allowed v (a + Z.of_nat m)) eqn:Ha; [|lia].
    exists m. split; [lia|]. split; [exact Ha|lia].
Qed.

(** The loop over the squares, when the counter cannot wrap. *)
Lemma king_square_fold v a m tbl :
  Z.of_nat m < 2147483647 ->
  exists tbl',
    foldl (king_square_body v) (tbl, 0) (seqZ a (Z.of_nat m))
    = (tbl', allowed_count v a m)
    /\ forall s,
         tbl' !! s
         = if (a <=? s) && (s <? a + Z.of_nat m) && king_allowed v s
           then Some (int (allowed_count v a (Z.to_nat (s - a))
                           * nnuePieceIndices_of v))
           else tbl !! s.
Proof.
  induction m as [|m IH]; intros Hm.
  - exists tbl. split; [reflexivity|]. intros s.
    replace ((a <=? s) && (s <? a + Z.of_nat 0)) with false; [reflexivity|].
    symmetry. apply andb_false_iff. destruct (Z.leb_spec a s); [right|left; reflexivity].
    apply Z.ltb_ge. lia.
  - destruct IH as (tm & Hf & Hl); [lia|].
    rewrite seqZ_S, foldl_app, Hf. cbn [foldl allowed_count].
    unfold king_square_body.
    pose proof (allowed_count_bounds v a m) as Hb.
    destruct (king_allowed v (a + Z.of_nat m)) eqn:Ha.
    + eexists. split.
      { rewrite (int_small (allowed_count v a m + 1)) by lia. reflexivity. }
      intros s. rewrite lookup_insert. case_decide as Hs.
      * subst s. rewrite Ha.
        replace (a + Z.of_nat m - a) with (Z.of_nat m) by lia. rewrite Nat2Z.id.
        replace ((a <=? a + Z.of_nat m) && (a + Z.of_nat m <? a + Z.of_nat (S m)))
          with true; [reflexivity|].
        symmetry. apply andb_true_iff. split; [apply Z.leb_le|apply Z.ltb_lt]; lia.
      * rewrite Hl.
        replace (s <? a + Z.of_nat (S m)) with (s <? a + Z.of_nat m); [reflexivity|].
        destruct (Z.ltb_spec s (a + Z.of_nat m)), (Z.ltb_spec s (a + Z.of_nat (S m)));
          try reflexivity; lia.
    + exists tm. split; [f_equal; lia|].
      intros s. rewrite Hl.
      destruct (Z.eq_dec s (a + Z.of_nat m)) as [->|Hs].
      * rewrite Ha, !andb_false_r. reflexivity.
      * replace (s <? a + Z.of_nat (S m)) with (s <? a + Z.of_nat m); [reflexivity|].
        destruct (Z.ltb_spec s (a + Z.of_nat m)), (Z.ltb_spec s (a + Z.of_nat (S m)));
          try reflexivity; lia.
Qed.

End KingSquares.

Section KingTable.
Context `{T : Types}.

(** Sizes of the feature space for a board within the bounds. *)
Lemma feature_sizes v :
  (FILE_MAX + 1) * (RANK_MAX + 1) <= SQUARE_NB -> SQUARE_NB <= 1024 ->
  nnueKing_of v <> NO_PIECE_TYPE ->
  0 <= maxFile v <= FILE_MAX -> 0 <= maxRank v <= RANK_MAX ->
  let squares := (maxRank v + 1) * (maxFile v + 1) in
  1 <= squares <= SQUARE_NB
  /\ nnueSquares_of v = squares
  /\ nnuePieceIndices_of v <> 0
  /\ - 400000 <= nnuePieceIndices_of v <= 400000.
Proof.
  intros Hsq Hcap Hking Hf Hr squares.
  assert (Hs : 1 <= squares <= SQUARE_NB) by (subst squares; nia).
  assert (Hn : nnueSquares_of v = squares)
    by (unfold nnueSquares_of; apply int_small; lia).
  assert (Hfile : 1 <= maxFile v + 1 <= 1024) by (subst squares; nia).
  assert (Hp : 0 <= nnuePockets_of v <= 2048).
  { unfold nnuePockets_of. destruct (nnueUsePockets_of v); [|lia].
    rewrite (int_small (maxFile v + 1)) by lia. rewrite int_small by lia. lia. }
  assert (Hh : has_king (nnueKing_of v) = 1).
  { unfold has_king. destruct (N.eqb_spec (nnueKing_of v) NO_PIECE_TYPE);
      [contradiction|reflexivity]. }
  pose proof (bitset64_count_bounds (pieceTypes v)) as Hc.
  set (c := bitset64_count (pieceTypes v)) in *.
  assert (Hnd : nnueNonDropPieceIndices_of v = (2 * c - 1) * squares).
  { unfold nnueNonDropPieceIndices_of. fold c. rewrite Hh, Hn.
    apply int_small.
    assert ((2 * c - 1) * squares = 2 * (c * squares) - squares) by ring.
    assert (0 <= c * squares <= 65536) by nia. lia. }
  assert (Hpi : nnuePieceIndices_of v
                = (2 * c - 1) * squares + 2 * (c - 1) * nnuePockets_of v).
  { unfold nnuePieceIndices_of. fold c. rewrite Hnd, Hh. apply int_small.
    assert ((2 * c - 1) * squares = 2 * (c * squares) - squares) by ring.
    assert (2 * (c - 1) * nnuePockets_of v
            = 2 * (c * nnuePockets_of v) - 2 * nnuePockets_of v) by ring.
    assert (0 <= c * squares <= 65536) by nia.
    assert (0 <= c * nnuePockets_of v <= 131072) by nia. lia. }
  split; [exact Hs|]. split; [exact Hn|]. rewrite Hpi.
  set (p := nnuePockets_of v) in *.
  assert (A1 : (2 * c - 1) * squares = 2 * (c * squares) - squares) by ring.
  assert (A2 : 2 * (c - 1) * p = 2 * (c * p) - 2 * p) by ring.
  assert (B1 : 0 <= c * squares <= 65536) by nia.
  assert (B2 : 0 <= c * p <= 131072) by nia.
  rewrite A1, A2. split; [|lia].
  destruct (Z.eq_dec c 0) as [->|Hc0]; [lia|].
  assert (squares <= c * squares) by nia.
  assert (p <= c * p) by nia. lia.
Qed.

(** C6. For a ruleset with a chosen anchor and a board within the
    bounds, [conclude] gives every square the anchor may stand on the
    entry [rank * stride], where [rank] counts the reachable squares that
    come before it and [stride] is the per-king feature count, which is
    not zero. The ranks map the reachable squares one-to-one onto
    [0, ..., count - 1], so the entries of two distinct reachable
    squares differ; the other squares get no entry; and the dimension is
    [count * stride]. *)
Theorem kingSquareIndex_bijection (v : Variant) :
  NO_PIECE_TYPE = 0%N -> SQ_A1 = 0 ->
  (FILE_MAX + 1) * (RANK_MAX + 1) <= SQUARE_NB -> SQUARE_NB <= 1024 ->
  nnueKing (conclude v) <> NO_PIECE_TYPE ->
  0 <= maxFile v <= FILE_MAX -> 0 <= maxRank v <= RANK_MAX ->
  let squares := (maxRank v + 1) * (maxFile v + 1) in
  let reachable s := 0 <= s < squares /\ king_allowed v s = true in
  let count := king_rank v squares in
  let stride := nnuePieceIndices_of v in
  stride <> 0
  /\ (forall s, reachable s ->
        kingSquareIndex (conclude v) !! s = Some (king_rank v s * stride))
  /\ (forall s, ~ reachable s ->
        kingSquareIndex (conclude v) !! s = kingSquareIndex v !! s)
  /\ (forall s, reachable s -> 0 <= king_rank v s < count)
  /\ (forall s1 s2, reachable s1 -> reachable s2 ->
        king_rank v s1 = king_rank v s2 -> s1 = s2)
  /\ (forall k, 0 <= k < count -> exists s, reachable s /\ king_rank v s = k)
  /\ (forall s1 s2, reachable s1 -> reachable s2 -> s1 <> s2 ->
        kingSquareIndex (conclude v) !! s1 <> kingSquareIndex (conclude v) !! s2)
  /\ nnueDimensions (conclude v) = count * stride.
Proof.
  intros Hnone Ha1 Hsq Hcap Hking Hf Hr squares reachable count stride.
  cbn [conclude nnueKing] in Hking.
  destruct (feature_sizes v Hsq Hcap Hking Hf Hr) as (Hs & Hn & Hnz & Hb).
  fold squares in Hs, Hn. fold stride in Hnz, Hb.
  assert (Hnk : nonzero (nnueKing_of v) = true)
    by (apply nonzero_true; congruence).
  (* the table and the counter left by the loop *)
  destruct (king_square_fold v 0 (Z.to_nat squares) (kingSquareIndex v))
    as (tbl & Hfold & Hlook); [lia|].
  rewrite Z2Nat.id in Hfold, Hlook by lia.
  assert (Hks : king_squares_of v = (tbl, count)).
  { unfold king_squares_of, king_squares_from.
    rewrite Hnk, Hn, Ha1. cbn [andb].
    destruct (Z.leb_spec squares SQUARE_NB); [|lia].
    rewrite Z.sub_0_r. rewrite Hfold. unfold count, king_rank.
    rewrite Ha1, Z.sub_0_r. reflexivity. }
  assert (Hrank : forall s, king_rank v s = allowed_count v 0 (Z.to_nat s)).
  { intros s. unfold king_rank. rewrite Ha1, Z.sub_0_r. reflexivity. }
  assert (Hrange : forall s, 0 <= s < squares -> king_allowed v s = true ->
                             0 <= king_rank v s < count).
  { intros s Hs' Hal. rewrite Hrank. unfold count. rewrite Hrank. split.
    - apply allowed_count_bounds.
    - apply allowed_count_strict; [lia|]. rewrite Z2Nat.id by lia. exact Hal. }
  assert (Hcount : 0 <= count <= 1024).
  { unfold count. rewrite Hrank.
    pose proof (allowed_count_bounds v 0 (Z.to_nat squares)). lia. }
  assert (Hentry : forall s, reachable s ->
            kingSquareIndex (conclude v) !! s = Some (king_rank v s * stride)).
  { intros s [Hs' Hal]. cbn [conclude kingSquareIndex]. rewrite Hks. cbn [fst].
    rewrite Hlook, Hal.
    destruct (Z.leb_spec 0 s); [|lia]. destruct (Z.ltb_spec s (0 + squares)); [|lia].
    cbn [andb]. rewrite Z.sub_0_r, <- Hrank. f_equal. apply int_small.
    pose proof (Hrange s Hs' Hal). fold stride. nia. }
  assert (Hinj : forall s1 s2, reachable s1 -> reachable s2 ->
            king_rank v s1 = king_rank v s2 -> s1 = s2).
  { intros s1 s2 [H1 A1] [H2 A2]. rewrite !Hrank. intros Heq.
    destruct (Z.lt_trichotomy s1 s2) as [Hlt|[Heq'|Hgt]]; [exfalso|exact Heq'|exfalso].
    - pose proof (allowed_count_strict v 0 (Z.to_nat s1) (Z.to_nat s2)) as Hst.
      rewrite Z2Nat.id in Hst by lia. specialize (Hst ltac:(lia) A1). lia.
    - pose proof (allowed_count_strict v 0 (Z.to_nat s2) (Z.to_nat s1)) as Hst.
      rewrite Z2Nat.id in Hst by lia. specialize (Hst ltac:(lia) A2). lia. }
  split; [exact Hnz|]. split; [exact Hentry|]. split.
  { intros s Hs'. cbn [conclude kingSquareIndex]. rewrite Hks. cbn [fst].
    rewrite Hlook.
    destruct ((0 <=? s) && (s <? 0 + squares) && king_allowed v s) eqn:Hc;
      [|reflexivity].
    exfalso. apply Hs'. apply andb_true_iff in Hc. destruct Hc as [Hc Hal].
    apply andb_true_iff in Hc. destruct Hc as [H1 H2].
    apply Z.leb_le in H1. apply Z.ltb_lt in H2. split; [lia|exact Hal]. }
  split; [intros s [Hs' Hal]; apply Hrange; assumption|].
  split; [exact Hinj|]. split.
  { intros k Hk. unfold count in Hk. rewrite Hrank in Hk.
    destruct (allowed_count_onto v 0 (Z.to_nat squares) k Hk) as (j & Hj & Hal & Hc).
    exists (Z.of_nat j). split; [split; [lia|exact Hal]|].
    rewrite Hrank, Nat2Z.id. exact Hc. }
  split.
  { intros s1 s2 R1 R2 Hne. rewrite (Hentry s1 R1), (Hentry s2 R2).
    intros Heq. apply Hne, Hinj; [assumption..|].
    injection Heq as Heq. apply Z.mul_reg_r in Heq; assumption. }
  cbn [conclude nnueDimensions]. unfold nnueDimensions_of. rewrite Hks. cbn [snd].
  fold stride. apply int_small. nia.
Qed.

(** C8. [conclude] is defined for every ruleset, and its loops over the
    piece set end by their own condition within the rounds the model
    grants them. Every store into [kingSquareIndex] has an index inside
    the table of [SQUARE_NB] cells: the table after the call is the
    table before it updated by a list of stores whose indices all lie
    in [0, SQUARE_NB). When the computed number of squares exceeds
    [SQUARE_NB], the loop over the squares is skipped and the only
    store is the fallback one at [SQ_A1]. *)
Theorem kingSquareIndex_stores_in_bounds (v : Variant) :
  0 <= SQ_A1 < SQUARE_NB ->
  (exists stores,
      kingSquareIndex (conclude v)
      = puts (fun s x (m : gmap Z Z) => <[s := x]> m) stores (kingSquareIndex v)
      /\ Forall (fun w => 0 <= fst w < SQUARE_NB) stores)
  /\ (forall s, ~ (0 <= s < SQUARE_NB) ->
        kingSquareIndex (conclude v) !! s = kingSquareIndex v !! s)
  /\ (SQUARE_NB < nnueSquares_of v ->
      kingSquareIndex (conclude v) = <[SQ_A1 := 0]> (kingSquareIndex v)
      /\ nnueDimensions (conclude v) = nnuePieceIndices_of v)
  /\ (forall extra t,
        index_loop (nnueKing_of v) (nnueSquares_of v) (nnuePockets_of v)
          (nnueNonDropPieceIndices_of v)
          (set_fuel (pieceTypes v) + extra) (pieceTypes v) 0 t
        = index_tables_from v t)
  /\ (forall extra,
        restricted_loop (mobilityRegion v) (set_fuel (pieceTypes v) + extra)
          (pieceTypes v) false
        = restrictedMobility v).
Proof.
  intros Ha1.
  assert (Hfold : forall l k0 tbl,
            Forall (fun s => 0 <= s < SQUARE_NB) l ->
            exists stores,
              fst (foldl (king_square_body v) (tbl, k0) l)
              = puts (fun s x (m : gmap Z Z) => <[s := x]> m) stores tbl
              /\ Forall (fun w => 0 <= fst w < SQUARE_NB) stores).
  { induction l as [|s l IH]; intros k0 tbl Hl.
    - exists []. split; [reflexivity|constructor].
    - inversion Hl as [|? ? Hs Hl']; subst. cbn [foldl].
      unfold king_square_body at 2. destruct (king_allowed v s).
      + destruct (IH (int (k0 + 1))
                    (<[s := int (k0 * nnuePieceIndices_of v)]> tbl) Hl')
          as (ws & Hw & Hall).
        exists ((s, int (k0 * nnuePieceIndices_of v)) :: ws).
        split; [exact Hw|]. constructor; [exact Hs|exact Hall].
      + apply IH, Hl'. }
  assert (Hstores : exists stores,
            kingSquareIndex (conclude v)
            = puts (fun s x (m : gmap Z Z) => <[s := x]> m) stores (kingSquareIndex v)
            /\ Forall (fun w => 0 <= fst w < SQUARE_NB) stores).
  { cbn [conclude kingSquareIndex]. unfold king_squares_of, king_squares_from.
    destruct (nonzero (nnueKing_of v) && (nnueSquares_of v <=? SQUARE_NB)) eqn:Hg.
    - apply Hfold. apply andb_true_iff in Hg. destruct Hg as [_ Hg].
      apply Z.leb_le in Hg. apply Forall_seqZ. intros s Hs. lia.
    - exists [(SQ_A1, int (0 * nnuePieceIndices_of v))].
      split; [reflexivity|]. repeat constructor; cbn [fst]; lia. }
  split; [exact Hstores|]. split.
  { intros s Hs. destruct Hstores as (ws & -> & Hall).
    induction ws as [|w ws IH] using rev_ind; [reflexivity|].
    rewrite puts_app. apply Forall_app in Hall. destruct Hall as [Hall Hw].
    inversion Hw as [|? ? Hw' _]; subst. cbn [puts foldl].
    rewrite lookup_insert_ne by (intros He; apply Hs; rewrite <- He; exact Hw').
    apply IH, Hall. }
  split.
  { intros Hbig. cbn [conclude kingSquareIndex nnueDimensions].
    unfold nnueDimensions_of, king_squares_of, king_squares_from.
    destruct (Z.leb_spec (nnueSquares_of v) SQUARE_NB); [lia|].
    rewrite andb_false_r. cbn [fst snd].
    split; [reflexivity|].
    change (int (0 + 1)) with 1. rewrite Z.mul_1_l.
    unfold nnuePieceIndices_of. apply int_idem. }
  split.
  { intros extra t. unfold index_tables_from.
    apply index_loop_fuel, popcount_fuel. }
  intros extra. unfold restrictedMobility.
  apply restricted_loop_fuel, popcount_fuel.
Qed.

End KingTable.

(** * Streams: every successful read consumes input *)

Lemma extract_line_length d b :
  let '(line, rest, found) := extract_line d b in
  (String.length line + String.length rest + (if found then 1 else 0))%nat
  = String.length b.
Proof.
  induction b as [|c b IH]; cbn [extract_line]; [reflexivity|].
  destruct (Ascii.eqb c d); [cbn; lia|].
  destruct (extract_line d b) as [[l r] f]. cbn [String.length]. lia.
Qed.

Lemma getline_consumes s d :
  (String.length (buf (snd (getline s d))) <= String.length (buf s))%nat
  /\ (failbit (snd (getline s d)) = false ->
      (String.length (buf (snd (getline s d))) < String.length (buf s))%nat).
Proof.
  unfold getline. destruct (good s); [|cbn; split; [lia|discriminate]].
  pose proof (extract_line_length d (buf s)) as H.
  destruct (extract_line d (buf s)) as [[l r] f].
  destruct f; cbn [snd buf failbit].
  - split; [lia|]. intros _. lia.
  - split; [lia|]. destruct l; cbn [is_empty]; [discriminate|].
    intros _. cbn [String.length] in H. lia.
Qed.

Lemma peek_buf s : buf (snd (peek s)) = buf s.
Proof.
  unfold peek. destruct (good s); [|reflexivity].
  destruct (buf s) eqn:E; cbn [snd buf]; congruence.
Qed.

Lemma get_buf s : (String.length (buf (snd (get s))) <= String.length (buf s))%nat.
Proof.
  unfold get. destruct (good s); [|cbn; lia].
  destruct (buf s) as [|c r]; cbn [snd buf String.length]; lia.
Qed.

Section RegistryFacts.
Context `{T : Types} `{P : Parser}.

Lemma skip_loop_total fuel : forall f,
  (String.length (buf f) < fuel)%nat ->
  exists f', skip_loop fuel f = Some f'
             /\ (String.length (buf f') <= String.length (buf f))%nat.
Proof.
  induction fuel as [|fuel IH]; intros f Hlen; [lia|].
  cbn [skip_loop]. pose proof (peek_buf f) as Hp.
  destruct (peek f) as [c f1]. cbn [snd] in Hp.
  destruct (differs c "["); [|exists f1; split; [reflexivity|rewrite Hp; lia]].
  destruct (getline_consumes f1 "010") as [Hle Hlt].
  destruct (getline f1 "010") as [line f2]. cbn [snd] in Hle, Hlt.
  rewrite Hp in Hle, Hlt.
  destruct (failbit f2) eqn:Hfail; cbn [negb].
  - exists f2. split; [reflexivity|lia].
  - specialize (Hlt eq_refl). destruct (IH f2) as (f' & Hs & Hl); [lia|].
    exists f'. split; [exact Hs|lia].
Qed.

Lemma attribs_loop_total DoCheck fuel : forall f attribs printed,
  (String.length (buf f) < fuel)%nat ->
  exists f' attribs' printed',
    attribs_loop DoCheck fuel f attribs printed = Some (f', attribs', printed')
    /\ (String.length (buf f') <= String.length (buf f))%nat.
Proof.
  induction fuel as [|fuel IH]; intros f attribs printed Hlen; [lia|].
  cbn [attribs_loop]. pose proof (peek_buf f) as Hp.
  destruct (peek f) as [c f1]. cbn [snd] in Hp.
  destruct (differs c "[");
    [|exists f1, attribs, printed; split; [reflexivity|rewrite Hp; lia]].
  destruct (getline_consumes f1 "010") as [Hle Hlt].
  destruct (getline f1 "010") as [line f2]. cbn [snd] in Hle, Hlt.
  rewrite Hp in Hle, Hlt.
  destruct (failbit f2) eqn:Hfail; cbn [negb].
  - exists f2, attribs, printed. split; [reflexivity|lia].
  - specialize (Hlt eq_refl).
    destruct (parse_line DoCheck line attribs printed) as [attribs1 printed1].
    destruct (IH f2 attribs1 printed1) as (f' & a' & p' & Hs & Hl); [lia|].
    exists f', a', p'. split; [exact Hs|lia].
Qed.

(** [create_variant] leaves the stream alone. *)
Lemma create_variant_file DoCheck name template attribs st :
  file (create_variant DoCheck name template attribs st) = file st.
Proof.
  unfold create_variant. destruct (variants st !! name); [reflexivity|].
  destruct (if negb (is_empty template)
            then match variants st !! template with
                 | Some t => Some (Some t)
                 | None => None
                 end
            else Some None) as [tpl|]; [|reflexivity].
  destruct (match tpl with
            | Some t => VariantParser_parse DoCheck attribs (Variant_init t)
            | None => VariantParser_parse_default DoCheck attribs
            end) as [v printed].
  destruct ((maxFile v <=? FILE_MAX) && (maxRank v <=? RANK_MAX)); reflexivity.
Qed.

(** A round of the loop over the sections is always defined, and a
    round that does not leave the loop consumes input. *)
Lemma section_iter_total DoCheck st :
  exists r, section_iter DoCheck st = Some r
            /\ match r with
               | Continue st' =>
                   (String.length (buf (file st')) < String.length (buf (file st)))%nat
               | Break _ => True
               end.
Proof.
  unfold section_iter. pose proof (get_buf (file st)) as Hg.
  destruct (get (file st)) as [c f0]. cbn [snd] in Hg.
  destruct (truthy c); [|eexists; split; [reflexivity|exact I]].
  destruct (getline_consumes f0 "]") as [Hle1 _].
  destruct (getline f0 "]") as [name f1]. cbn [snd] in Hle1.
  destruct (getline_consumes f1 "010") as [_ Hlt2].
  destruct (getline f1 "010") as [line f2]. cbn [snd] in Hlt2.
  destruct (failbit f2) eqn:Hfail; cbn [negb];
    [eexists; split; [reflexivity|exact I]|].
  specialize (Hlt2 eq_refl).
  destruct (parse_header name) as [variant template].
  destruct (attribs_loop_total DoCheck (S (String.length (buf f2))) f2 ∅ (cerr st))
    as (f3 & attribs & printed & Ha & Hl3); [lia|].
  rewrite Ha. eexists. split; [reflexivity|]. cbv beta iota.
  rewrite create_variant_file. cbn [file]. lia.
Qed.

Lemma sections_loop_total DoCheck fuel : forall st,
  (String.length (buf (file st)) < fuel)%nat ->
  exists st', sections_loop DoCheck fuel st = Some st'.
Proof.
  induction fuel as [|fuel IH]; intros st Hlen; [lia|].
  cbn [sections_loop].
  destruct (section_iter_total DoCheck st) as (r & Hr & Hdec). rewrite Hr.
  destruct r as [st'|st']; [|exists st'; reflexivity].
  apply IH. lia.
Qed.

(** [parse_istream] returns for every input. *)
Lemma parse_istream_total DoCheck input registry printed :
  exists result, parse_istream DoCheck input registry printed = Some result.
Proof.
  unfold parse_istream.
  destruct (skip_loop_total (S (String.length input)) (open_stream input))
    as (f & Hs & _); [cbn; lia|].
  rewrite Hs.
  destruct (sections_loop_total DoCheck (S (String.length (buf f)))
              {| file := f; variants := registry; cerr := printed;
                 varsToErase := [] |}) as (st & Hst); [cbn; lia|].
  rewrite Hst. eexists. reflexivity.
Qed.

End RegistryFacts.

Section RegistryClaims.
Context `{T : Types} `{P : Parser}.

(** C1 (amended). [add] runs [conclude] on the ruleset and stores the
    result under the name when the name is free; when the name is
    already present the registry is left as it was, the earlier entry
    staying in place. In both cases the other names are untouched. *)
Theorem add_registers_unless_present (s : string) (v : Variant)
    (m : gmap string Variant) :
  (m !! s = None -> add s v m = <[s := conclude v]> m)
  /\ (forall w, m !! s = Some w -> add s v m = m)
  /\ (forall k, k <> s -> add s v m !! k = m !! k).
Proof.
  unfold add, map_insert. split; [|split].
  - intros ->. reflexivity.
  - intros w ->. reflexivity.
  - intros k Hk. destruct (m !! s); [reflexivity|].
    apply lookup_insert_ne. congruence.
Qed.

Lemma create_variant_cases DoCheck name template attribs st :
  let st' := create_variant DoCheck name template attribs st in
  (variants st' = variants st /\ varsToErase st' = varsToErase st)
  \/ (exists v, variants st !! name = None
                /\ variants st' = <[name := conclude v]> (variants st)
                /\ varsToErase st'
                   = if DoCheck then varsToErase st ++ [name] else varsToErase st).
Proof.
  unfold create_variant. destruct (variants st !! name) eqn:Hn; [left; tauto|].
  destruct (if negb (is_empty template)
            then match variants st !! template with
                 | Some t => Some (Some t)
                 | None => None
                 end
            else Some None) as [tpl|]; [|left; tauto].
  destruct (match tpl with
            | Some t => VariantParser_parse DoCheck attribs (Variant_init t)
            | None => VariantParser_parse_default DoCheck attribs
            end) as [v printed].
  destruct ((maxFile v <=? FILE_MAX) && (maxRank v <=? RANK_MAX)); [|left; tauto].
  right. exists v. cbn [variants varsToErase]. split; [reflexivity|].
  unfold add, map_insert. rewrite Hn. tauto.
Qed.

Lemma section_iter_cases DoCheck st r :
  section_iter DoCheck st = Some r ->
  (variants (flow_state r) = variants st
   /\ varsToErase (flow_state r) = varsToErase st)
  \/ (exists name v, variants st !! name = None
                     /\ variants (flow_state r) = <[name := conclude v]> (variants st)
                     /\ varsToErase (flow_state r)
                        = if DoCheck then varsToErase st ++ [name]
                          else varsToErase st).
Proof.
  unfold section_iter. destruct (get (file st)) as [c f0].
  destruct (truthy c); [|intros [= <-]; left; tauto].
  destruct (getline f0 "]") as [name0 f1]. destruct (getline f1 "010") as [line f2].
  destruct (negb (failbit f2)); [|intros [= <-]; left; tauto].
  destruct (parse_header name0) as [name template].
  destruct (attribs_loop DoCheck _ f2 ∅ (cerr st)) as [[[f3 attribs] printed]|];
    [|discriminate].
  intros [= <-]. cbn [flow_state].
  destruct (create_variant_cases DoCheck name template attribs
              {| file := f3; variants := variants st; cerr := printed;
                 varsToErase := varsToErase st |}) as [H|(v & H)];
    cbn [variants varsToErase] in H; [left; exact H|right; exists name, v; exact H].
Qed.

Lemma section_iter_grows DoCheck st r :
  section_iter DoCheck st = Some r -> variants st ⊆ variants (flow_state r).
Proof.
  intros H. destruct (section_iter_cases _ _ _ H) as [[-> _]|(n & v & Hn & -> & _)];
    [reflexivity|]. apply insert_subseteq. exact Hn.
Qed.

Lemma section_iter_only_added registry st r :
  only_added registry st -> section_iter true st = Some r ->
  only_added registry (flow_state r).
Proof.
  intros [H1 H2] H.
  destruct (section_iter_cases _ _ _ H) as [[Hv He]|(n & v & Hn & Hv & He)];
    unfold only_added; rewrite Hv, He; [split; assumption|].
  split.
  - intros k Hk. rewrite not_elem_of_app, list_elem_of_singleton in Hk.
    destruct Hk as [Hk Hne]. rewrite lookup_insert_ne by congruence. apply H1, Hk.
  - intros k Hk. rewrite elem_of_app, list_elem_of_singleton in Hk.
    destruct Hk as [Hk| ->]; [apply H2, Hk|].
    destruct (decide (n ∈ varsToErase st)) as [Hin|Hout]; [apply H2, Hin|].
    rewrite <- (H1 n Hout). exact Hn.
Qed.

Lemma sections_loop_only_added registry fuel : forall st st',
  only_added registry st -> sections_loop true fuel st = Some st' ->
  only_added registry st'.
Proof.
  induction fuel as [|fuel IH]; intros st st' Hi; [discriminate|].
  cbn [sections_loop]. destruct (section_iter true st) as [r|] eqn:Hr; [|discriminate].
  pose proof (section_iter_only_added _ _ _ Hi Hr) as Hi'.
  destruct r as [st1|st1]; cbn [flow_state] in Hi'.
  - apply IH, Hi'.
  - intros [= <-]. exact Hi'.
Qed.

Lemma sections_loop_normal fuel : forall st st',
  sections_loop false fuel st = Some st' ->
  varsToErase st' = varsToErase st
  /\ forall n st_n, after_rounds false n st = Some st_n -> variants st_n ⊆ variants st'.
Proof.
  induction fuel as [|fuel IH]; intros st st'; [discriminate|].
  cbn [sections_loop]. destruct (section_iter false st) as [r|] eqn:Hr; [|discriminate].
  pose proof (section_iter_grows _ _ _ Hr) as Hg.
  assert (He : varsToErase (flow_state r) = varsToErase st).
  { destruct (section_iter_cases _ _ _ Hr) as [[_ He]|(n & v & _ & _ & He)]; exact He. }
  destruct r as [st1|st1]; cbn [flow_state] in Hg, He.
  - intros Hl. destruct (IH _ _ Hl) as [He' Hn]. split; [congruence|].
    intros [|n] st_n; cbn [after_rounds].
    + intros [= <-]. etransitivity; [exact Hg|]. exact (Hn 0%nat _ eq_refl).
    + rewrite Hr. apply Hn.
  - intros [= <-]. split; [exact He|].
    intros [|n] st_n; cbn [after_rounds].
    + intros [= <-]. exact Hg.
    + rewrite Hr. discriminate.
Qed.

Lemma erase_all_lookup names : forall (m : gmap string Variant) k,
  erase_all names m !! k = if decide (k ∈ names) then None else m !! k.
Proof.
  unfold erase_all. induction names as [|n names IH]; intros m k; cbn [foldl].
  - destruct (decide (k ∈ [])) as [Hin|]; [|reflexivity].
    apply elem_of_nil in Hin. contradiction.
  - rewrite IH. destruct (decide (k ∈ names)) as [Hin|Hout].
    + rewrite decide_True by (apply elem_of_cons; tauto). reflexivity.
    + destruct (decide (k = n)) as [->|Hne].
      * rewrite decide_True by (apply elem_of_cons; tauto). apply lookup_delete_eq.
      * rewrite decide_False by (rewrite elem_of_cons; tauto).
        apply lookup_delete_ne. congruence.
Qed.

(** A round that follows a reachable round is reachable. *)
Lemma after_rounds_step DoCheck n : forall st0 st st',
  after_rounds DoCheck n st0 = Some st ->
  section_iter DoCheck st = Some (Continue st') ->
  after_rounds DoCheck (S n) st0 = Some st'.
Proof.
  induction n as [|n IH]; intros st0 st st' Hr Hs.
  - injection Hr as <-. cbn [after_rounds]. rewrite Hs. reflexivity.
  - cbn [after_rounds] in Hr. change (after_rounds DoCheck (S (S n)) st0)
      with (match section_iter DoCheck st0 with
            | Some (Continue st1) => after_rounds DoCheck (S n) st1
            | _ => None
            end).
    destruct (section_iter DoCheck st0) as [[st1|st1]|]; try discriminate.
    exact (IH _ _ _ Hr Hs).
Qed.

(** Lines 329-346: a section whose name is free, whose template (if
    any) is registered and whose board fits is registered. *)
Lemma create_variant_registers DoCheck name template attribs st :
  variants st !! name = None ->
  (is_empty template = false -> is_Some (variants st !! template)) ->
  maxFile (parsed_ruleset DoCheck attribs (variants st) template).1 <= FILE_MAX ->
  maxRank (parsed_ruleset DoCheck attribs (variants st) template).1 <= RANK_MAX ->
  variants (create_variant DoCheck name template attribs st) !! name
  = Some (conclude (parsed_ruleset DoCheck attribs (variants st) template).1).
Proof.
  intros Hn Ht. unfold create_variant, parsed_ruleset. rewrite Hn.
  destruct (is_empty template) eqn:He; cbn [negb].
  - destruct (VariantParser_parse_default DoCheck attribs) as [v said]. cbn [fst].
    intros Hf Hr. apply Z.leb_le in Hf, Hr. rewrite Hf, Hr. cbn [andb variants].
    unfold add, map_insert. rewrite Hn. apply lookup_insert_eq.
  - destruct (Ht eq_refl) as [t Ht']. rewrite Ht'.
    destruct (VariantParser_parse DoCheck attribs (Variant_init t)) as [v said]. cbn [fst].
    intros Hf Hr. apply Z.leb_le in Hf, Hr. rewrite Hf, Hr. cbn [andb variants].
    unfold add, map_insert. rewrite Hn. apply lookup_insert_eq.
Qed.

(** Lines 306-346: a round that reads a section which is parsed with
    success goes on with the ruleset registered under the section's
    name. *)
Lemma section_iter_registers DoCheck st c f0 header f1 line f2 f3 attribs printed1 :
  get (file st) = (c, f0) -> truthy c = true ->
  getline f0 "]" = (header, f1) ->
  getline f1 "010" = (line, f2) -> failbit f2 = false ->
  attribs_loop DoCheck (S (String.length (buf f2))) f2 ∅ (cerr st)
  = Some (f3, attribs, printed1) ->
  variants st !! (parse_header header).1 = None ->
  (is_empty (parse_header header).2 = false ->
   is_Some (variants st !! (parse_header header).2)) ->
  maxFile (parsed_ruleset DoCheck attribs (variants st) (parse_header header).2).1
  <= FILE_MAX ->
  maxRank (parsed_ruleset DoCheck attribs (variants st) (parse_header header).2).1
  <= RANK_MAX ->
  exists st',
    section_iter DoCheck st = Some (Continue st')
    /\ variants st' !! (parse_header header).1
       = Some (conclude (parsed_ruleset DoCheck attribs (variants st)
                           (parse_header header).2).1).
Proof.
  intros Hg Hc Hh Hl Hf Ha Hn Ht Hmf Hmr. unfold section_iter.
  rewrite Hg, Hc, Hh, Hl, Hf. cbn [negb].
  destruct (parse_header header) as [name template]. cbn [fst snd] in *.
  rewrite Ha. eexists. split; [reflexivity|].
  apply (create_variant_registers DoCheck name template attribs
           {| file := f3; variants := variants st; cerr := printed1;
              varsToErase := varsToErase st |}); assumption.
Qed.

(** C2. A strict-mode pass over any input returns, and the registry it
    leaves is the registry it found: every ruleset the pass registered
    has been erased again. A normal-mode pass over the same input
    returns too, and erases nothing: the registry found on entry, and
    the registry at the start of each round of the loop over the
    sections, with every ruleset registered up to then, is part of the
    registry it leaves. Moreover every section the pass parses with
    success is left registered: whenever a round of the loop reads a
    section (header and attribute lines, lines 306-326) whose name is
    free at that point, whose template, if any, is registered at that
    point, and whose parsed ruleset fits the board bounds, the registry
    the pass leaves holds the derived ruleset under the section's
    name. *)
Theorem parse_istream_modes (input : string) (registry : gmap string Variant)
    (printed : list string) :
  (exists printed',
      parse_istream true input registry printed = Some (registry, printed'))
  /\ (exists registry' printed',
        parse_istream false input registry printed = Some (registry', printed')
        /\ registry ⊆ registry'
        /\ forall f n st,
             skip_loop (S (String.length input)) (open_stream input) = Some f ->
             after_rounds false n
               {| file := f; variants := registry; cerr := printed;
                  varsToErase := [] |} = Some st ->
             variants st ⊆ registry'
             /\ forall c f0 header f1 line f2 f3 attribs printed1,
                  get (file st) = (c, f0) -> truthy c = true ->
                  getline f0 "]" = (header, f1) ->
                  getline f1 "010" = (line, f2) -> failbit f2 = false ->
                  attribs_loop false (S (String.length (buf f2))) f2 ∅ (cerr st)
                  = Some (f3, attribs, printed1) ->
                  let name := (parse_header header).1 in
                  let template := (parse_header header).2 in
                  let v := (parsed_ruleset false attribs (variants st) template).1 in
                  variants st !! name = None ->
                  (is_empty template = false -> is_Some (variants st !! template)) ->
                  maxFile v <= FILE_MAX -> maxRank v <= RANK_MAX ->
                  registry' !! name = Some (conclude v)).
Proof.
  split.
  - destruct (parse_istream_total true input registry printed) as [[m p] Hp].
    exists p. rewrite Hp. f_equal. f_equal.
    unfold parse_istream in Hp.
    destruct (skip_loop _ _) as [f|]; [|discriminate].
    destruct (sections_loop true _ _) as [st|] eqn:Hl; [|discriminate].
    injection Hp as <- <-.
    assert (Hi : only_added registry st).
    { eapply sections_loop_only_added; [|exact Hl].
      split; cbn [variants varsToErase]; [reflexivity|].
      intros k Hk. apply elem_of_nil in Hk. contradiction. }
    destruct Hi as [H1 H2]. apply map_eq. intros k. rewrite erase_all_lookup.
    destruct (decide (k ∈ varsToErase st)) as [Hin|Hout].
    + symmetry. apply H2, Hin.
    + apply H1, Hout.
  - destruct (parse_istream_total false input registry printed) as [[m p] Hp].
    exists m, p. split; [exact Hp|].
    unfold parse_istream in Hp.
    destruct (skip_loop _ _) as [f|]; [|discriminate].
    destruct (sections_loop false _ _) as [st|] eqn:Hl; [|discriminate].
    injection Hp as <- <-.
    destruct (sections_loop_normal _ _ _ Hl) as [He Hn].
    cbn [varsToErase] in He. rewrite He. cbn [erase_all foldl].
    split.
    + exact (Hn 0%nat _ eq_refl).
    + intros f' n st_n [= <-] Hr. split; [apply (Hn n), Hr|].
      intros c f0 header f1 line f2 f3 attribs printed1 Hg Hc Hh Hline Hf Ha
        Hfree Ht Hmf Hmr.
      destruct (section_iter_registers false st_n c f0 header f1 line f2 f3
                  attribs printed1 Hg Hc Hh Hline Hf Ha Hfree Ht Hmf Hmr)
        as (st' & Hs & Hreg).
      pose proof (after_rounds_step _ _ _ _ _ Hr Hs) as Hr'.
      exact (lookup_weaken _ _ _ _ Hreg (Hn (S n) st' Hr')).
Qed.

(** C9. For a section that is parsed (its name is free and its
    template, if any, is registered), in either mode: the lines printed
    are the verbose header in strict mode and what the attribute applier
    printed, whether or not the board fits, so the discard prints
    nothing of its own; when the extent of the derived ruleset exceeds
    the bounds the registry and the list of transient names are
    unchanged; when it fits, the derived ruleset is registered under the
    section's name (and the name is listed as transient in strict mode). *)
Theorem create_variant_bounds (DoCheck : bool) (name template : string)
    (attribs : gmap string string) (st : pstate) :
  variants st !! name = None ->
  (is_empty template = false -> is_Some (variants st !! template)) ->
  let v := fst (parsed_ruleset DoCheck attribs (variants st) template) in
  let said := snd (parsed_ruleset DoCheck attribs (variants st) template) in
  let st' := create_variant DoCheck name template attribs st in
  cerr st'
  = cerr st ++ (if DoCheck then [String.append "Parsing variant: " name] else [])
    ++ said
  /\ (FILE_MAX < maxFile (conclude v) \/ RANK_MAX < maxRank (conclude v) ->
      variants st' = variants st /\ varsToErase st' = varsToErase st)
  /\ (maxFile (conclude v) <= FILE_MAX /\ maxRank (conclude v) <= RANK_MAX ->
      variants st' = <[name := conclude v]> (variants st)
      /\ variants st' !! name = Some (conclude v)
      /\ varsToErase st'
         = if DoCheck then varsToErase st ++ [name] else varsToErase st).
Proof.
  intros Hn Ht v said st'. subst v said st'.
  unfold create_variant, parsed_ruleset. rewrite Hn.
  destruct (is_empty template) eqn:He; cbn [negb].
  - destruct (VariantParser_parse_default DoCheck attribs) as [v said].
    cbn [fst snd conclude maxFile maxRank].
    destruct (Z.leb_spec (maxFile v) FILE_MAX), (Z.leb_spec (maxRank v) RANK_MAX);
      cbn [andb cerr variants varsToErase];
      (split; [destruct DoCheck; rewrite <- ?app_assoc; reflexivity|]);
      (split; [intros; try lia; tauto|]); intros; try lia.
    unfold add, map_insert. rewrite Hn. rewrite lookup_insert_eq. tauto.
  - destruct (Ht eq_refl) as [t Ht']. rewrite Ht'.
    destruct (VariantParser_parse DoCheck attribs (Variant_init t)) as [v said].
    cbn [fst snd conclude maxFile maxRank].
    destruct (Z.leb_spec (maxFile v) FILE_MAX), (Z.leb_spec (maxRank v) RANK_MAX);
      cbn [andb cerr variants varsToErase];
      (split; [destruct DoCheck; rewrite <- ?app_assoc; reflexivity|]);
      (split; [intros; try lia; tauto|]); intros; try lia.
    unfold add, map_insert. rewrite Hn. rewrite lookup_insert_eq. tauto.
Qed.

End RegistryClaims.

(** * Concrete inputs *)

(** C1, counterexample: a second [add] under a name that is taken does
    not replace the entry. The registry still holds the ruleset of the
    first call, which differs from the one of the second. *)
Lemma add_duplicate_keeps_earlier :
  add (T := sample_types) "chess" (with_extent chess 5 5)
      (add (T := sample_types) "chess" chess ∅) !! "chess"%string
  = Some (conclude (T := sample_types) chess)
  /\ conclude (T := sample_types) chess
     <> conclude (T := sample_types) (with_extent chess 5 5).
Proof.
  split.
  - unfold add, map_insert. rewrite lookup_empty, lookup_insert_eq.
    apply lookup_insert_eq.
  - intros H. apply (f_equal maxFile) in H. discriminate H.
Qed.

(** C10, counterexample: the two start positions agree up to their
    first whitespace character (a tab), yet the anchor is kept for one
    and rejected for the other, so the uniqueness count reads past that
    character. *)
Lemma uniqueness_scan_reads_past_tab :
  before_whitespace tab_fen_kings = before_whitespace tab_fen_queen
  /\ nnueKing (conclude (T := sample_types) (with_startFen chess tab_fen_kings))
     = KING (Types := sample_types)
  /\ nnueKing (conclude (T := sample_types) (with_startFen chess tab_fen_queen))
     = NO_PIECE_TYPE (Types := sample_types).
Proof. repeat split; vm_compute; reflexivity. Qed.

(** C10, witness: the standard position with a pocket holding a king. *)
Lemma start_position_scans_witness :
  nnueKing (conclude (T := sample_types) (with_startFen chess pocket_fen))
  = NO_PIECE_TYPE (Types := sample_types).
Proof.
  destruct (start_position_scans (T := sample_types) (with_startFen chess pocket_fen))
    as (_ & _ & _ & _ & H).
  destruct (H "rnbqkbnr/pppppppp/8/8/8/8/PPPPPPPP/RNBQKBNR"%string "Kq"%string
              "w KQkq - 0 1"%string eq_refl eq_refl) as (_ & _ & Hk & _).
  apply (Hk WHITE); vm_compute; discriminate.
Defined.

(** C7, witness: chess is eligible for endgame evaluation. *)
Lemma endgameEval_disqualifiers_witness :
  endgameEval (conclude (T := sample_types) chess) = true.
Proof.
  apply (proj2 (endgameEval_disqualifiers (T := sample_types) chess)).
  repeat split; vm_compute; reflexivity.
Defined.

(** C6, witness: chess on the 8x8 board. *)
Lemma kingSquareIndex_bijection_witness :
  nnuePieceIndices_of (T := sample_types) chess <> 0
  /\ nnueDimensions (conclude (T := sample_types) chess)
     = king_rank (T := sample_types) chess 64
       * nnuePieceIndices_of (T := sample_types) chess.
Proof.
  assert (H1 : (@FILE_MAX sample_types + 1) * (@RANK_MAX sample_types + 1)
               <= @SQUARE_NB sample_types) by (vm_compute; discriminate).
  assert (H2 : @SQUARE_NB sample_types <= 1024) by (vm_compute; discriminate).
  assert (H3 : nnueKing (conclude (T := sample_types) chess)
               <> @NO_PIECE_TYPE sample_types) by (vm_compute; discriminate).
  assert (H4 : 0 <= maxFile chess <= @FILE_MAX sample_types)
    by (split; vm_compute; discriminate).
  assert (H5 : 0 <= maxRank chess <= @RANK_MAX sample_types)
    by (split; vm_compute; discriminate).
  destruct (kingSquareIndex_bijection (T := sample_types) chess
              eq_refl eq_refl H1 H2 H3 H4 H5) as (Hz & _ & _ & _ & _ & _ & _ & Hd).
  split; [exact Hz|exact Hd].
Defined.

(** C8, witness: a board of 21 by 21 squares, for a table of 64 cells. *)
Lemma kingSquareIndex_stores_in_bounds_witness :
  kingSquareIndex (conclude (T := sample_types) (with_extent chess 20 20))
  = <[0 := 0]> ∅.
Proof.
  assert (H0 : 0 <= @SQ_A1 sample_types < @SQUARE_NB sample_types)
    by (split; vm_compute; [discriminate|reflexivity]).
  destruct (kingSquareIndex_stores_in_bounds (T := sample_types)
              (with_extent chess 20 20) H0) as (_ & _ & Hbig & _).
  destruct Hbig as [Ht _]; [vm_compute; reflexivity|]. exact Ht.
Defined.

(** C9, witness: a section asking for nine ranks is discarded in normal
    mode without a line being printed. *)
Lemma create_variant_bounds_witness :
  variants (create_variant (T := sample_types) (P := sample_parser) false
              "tall" "" {["maxRank"%string := "9"%string]} empty_state) = ∅
  /\ cerr (create_variant (T := sample_types) (P := sample_parser) false
             "tall" "" {["maxRank"%string := "9"%string]} empty_state) = [].
Proof.
  destruct (create_variant_bounds (T := sample_types) (P := sample_parser) false
              "tall" "" {["maxRank"%string := "9"%string]} empty_state)
    as (Hc & Hbig & _).
  - apply lookup_empty.
  - discriminate.
  - destruct Hbig as [Hv _]; [right; vm_compute; reflexivity|].
    split; [exact Hv|exact Hc].
Defined.

(** The two-section file of the specification: [b] takes [a] as its
    template. Strict mode leaves the registry empty, normal mode leaves
    both rulesets registered. *)
Lemma two_section_file :
  let input := String.append "[a]" (String "010" (String.append "[b:a]" (String "010" ""))) in
  option_map (fun r => map fst (map_to_list (fst r)))
    (parse_istream (T := sample_types) (P := sample_parser) true input ∅ [])
  = Some []
  /\ option_map (fun r => (bool_decide (is_Some (fst r !! "a"%string)),
                           bool_decide (is_Some (fst r !! "b"%string)),
                           size (fst r)))
       (parse_istream (T := sample_types) (P := sample_parser) false input ∅ [])
     = Some (true, true, 2%nat).
Proof. split; vm_compute; reflexivity. Qed.

(** C2, witness: in normal mode both sections of the two-section file
    are parsed with success, the first in the first round and the second
    in the round after it, and both are left registered. *)
Lemma parse_istream_modes_witness :
  exists registry' printed',
    parse_istream (T := sample_types) (P := sample_parser) false two_sections ∅ []
    = Some (registry', printed')
    /\ registry' !! "a"%string
       = Some (conclude (T := sample_types) (sample_apply ∅ chess))
    /\ is_Some (registry' !! "b"%string).
Proof.
  destruct (parse_istream_modes (T := sample_types) (P := sample_parser)
              two_sections ∅ []) as [_ (m & p & Hp & _ & Hr)].
  exists m, p. split; [exact Hp|]. split.
  - destruct (Hr (open_stream two_sections) 0%nat _ eq_refl eq_refl) as [_ H0].
    apply (H0 (Some "["%char)
              (open_stream (String.append "a]" (String "010"
                 (String.append "[b:a]" (String "010" "")))))
              "a"%string
              (open_stream (String "010" (String.append "[b:a]" (String "010" ""))))
              ""%string
              (open_stream (String.append "[b:a]" (String "010" "")))
              (open_stream (String.append "[b:a]" (String "010" "")))
              ∅ []);
      try reflexivity; try discriminate.
  - assert (Hs : exists st,
              after_rounds (T := sample_types) (P := sample_parser) false 1
                {| file := open_stream two_sections; variants := ∅; cerr := [];
                   varsToErase := [] |} = Some st
              /\ file st = open_stream (String.append "[b:a]" (String "010" ""))
              /\ cerr st = []
              /\ variants st !! "b"%string = None
              /\ variants st !! "a"%string
                 = Some (conclude (T := sample_types) (sample_apply ∅ chess))).
    { eexists. split; [reflexivity|]. vm_compute. repeat split. }
    destruct Hs as (st & Hst & Hfile & Hcerr & Hb & Ha).
    destruct (Hr (open_stream two_sections) 1%nat st eq_refl Hst) as [_ H1].
    eexists.
    apply (H1 (Some "["%char)
              (open_stream (String.append "b:a]" (String "010" "")))
              "b:a"%string
              (open_stream (String "010" ""))
              ""%string
              {| buf := ""; eofbit := false; failbit := false |}
              {| buf := ""; eofbit := true; failbit := true |}
              ∅ []).
    + rewrite Hfile. reflexivity.
    + reflexivity.
    + reflexivity.
    + reflexivity.
    + reflexivity.
    + rewrite Hcerr. reflexivity.
    + exact Hb.
    + intros _. change ((parse_header "b:a").2) with "a"%string. rewrite Ha. eauto.
    + unfold parsed_ruleset. change ((parse_header "b:a").2) with "a"%string.
      cbn [is_empty]. rewrite Ha. vm_compute. discriminate.
    + unfold parsed_ruleset. change ((parse_header "b:a").2) with "a"%string.
      cbn [is_empty]. rewrite Ha. vm_compute. discriminate.
Defined.

(** * The registry invariant *)

Section RegistryInvariant.
Context `{T : Types} `{P : Parser}.

Lemma conclude_concluded (v : Variant) : concluded (conclude v).
Proof.
  unfold concluded.
  assert (Ht : index_tables_of (conclude v) = index_tables_of v).
  { unfold index_tables_of. rewrite index_tables_from_conclude.
    cbn [conclude pieceSquareIndex pieceHandIndex].
    rewrite <- surjective_pairing. apply index_tables_from_idem. }
  assert (Hk : king_squares_of (conclude v) = king_squares_of v).
  { unfold king_squares_of. rewrite king_squares_from_conclude.
    cbn [conclude kingSquareIndex]. apply king_squares_from_idem. }
  unfold conclude at 1. unfold nnueDimensions_of.
  rewrite Ht, Hk, nnuePieceIndices_of_conclude,
    doubleStep_of_conclude, doubleStepRegion_of_conclude.
  reflexivity.
Qed.

Lemma add_lookup s v (m : gmap string Variant) k :
  add s v m !! k
  = match m !! k with
    | Some r => Some r
    | None => if decide (k = s) then Some (conclude v) else None
    end.
Proof.
  unfold add, map_insert. destruct (m !! s) eqn:Hs.
  - destruct (m !! k) eqn:Hk; [reflexivity|].
    destruct (decide (k = s)) as [->|]; [congruence|reflexivity].
  - rewrite lookup_insert. destruct (decide (s = k)) as [<-|Hne].
    + rewrite Hs. rewrite decide_True by reflexivity. reflexivity.
    + destruct (m !! k); [reflexivity|].
      rewrite decide_False by congruence. reflexivity.
Qed.

Lemma add_all_concluded s v m : all_concluded m -> all_concluded (add s v m).
Proof.
  intros Hm k r. rewrite add_lookup. destruct (m !! k) eqn:Hk.
  - intros [= <-]. apply (Hm k), Hk.
  - destruct (decide (k = s)); [|discriminate]. intros [= <-].
    apply conclude_concluded.
Qed.

(** X1. [add] keeps the registry's invariant that every registered
    ruleset is concluded, and after the call the name is registered
    with a concluded ruleset: the one that was there, or else the
    conclusion of the one passed. *)
Theorem add_keeps_concluded (s : string) (v : Variant) (m : gmap string Variant) :
  all_concluded m ->
  all_concluded (add s v m)
  /\ exists r, add s v m !! s = Some r /\ concluded r
               /\ (m !! s = None -> r = conclude v).
Proof.
  intros Hm. split; [apply add_all_concluded, Hm|].
  pose proof (add_lookup s v m s) as Hl. destruct (m !! s) as [r|] eqn:Hs.
  - exists r. split; [exact Hl|]. split; [apply (Hm s), Hs|discriminate].
  - rewrite decide_True in Hl by reflexivity. exists (conclude v).
    split; [exact Hl|]. split; [apply conclude_concluded|reflexivity].
Qed.

Lemma section_iter_all_concluded DoCheck st r :
  all_concluded (variants st) -> section_iter DoCheck st = Some r ->
  all_concluded (variants (flow_state r)).
Proof.
  intros Hm H.
  destruct (section_iter_cases _ _ _ H) as [[-> _]|(n & v & Hn & -> & _)];
    [exact Hm|].
  intros k r'. rewrite lookup_insert. case_decide.
  - intros [= <-]. apply conclude_concluded.
  - apply Hm.
Qed.

Lemma sections_loop_all_concluded DoCheck fuel : forall st st',
  all_concluded (variants st) -> sections_loop DoCheck fuel st = Some st' ->
  all_concluded (variants st').
Proof.
  induction fuel as [|fuel IH]; intros st st' Hm; [discriminate|].
  cbn [sections_loop]. destruct (section_iter DoCheck st) as [r|] eqn:Hr; [|discriminate].
  pose proof (section_iter_all_concluded _ _ _ Hm Hr) as Hm'.
  destruct r as [st1|st1]; cbn [flow_state] in Hm'.
  - apply IH, Hm'.
  - intros [= <-]. exact Hm'.
Qed.

(** X2. [parse_istream] keeps the same invariant in both modes: if every
    ruleset registered before the pass is concluded, the pass returns
    and every ruleset registered after it is concluded, whatever the
    input and the attribute applier. *)
Theorem parse_istream_keeps_concluded (DoCheck : bool) (input : string)
    (registry : gmap string Variant) (printed : list string) :
  all_concluded registry ->
  exists registry' printed',
    parse_istream DoCheck input registry printed = Some (registry', printed')
    /\ all_concluded registry'.
Proof.
  intros Hm.
  destruct (parse_istream_total DoCheck input registry printed) as [[m p] Hp].
  exists m, p. split; [exact Hp|]. revert Hp. unfold parse_istream.
  destruct (skip_loop _ _) as [f|]; [|discriminate].
  destruct (sections_loop DoCheck _ _) as [st|] eqn:Hl; [|discriminate].
  intros [= <- _].
  change registry with (variants {| file := f; variants := registry; cerr := printed;
                                    varsToErase := [] |}) in Hm.
  pose proof (sections_loop_all_concluded _ _ _ st Hm Hl) as Hst.
  intros k r. rewrite erase_all_lookup. case_decide; [discriminate|]. apply Hst.
Qed.

End RegistryInvariant.

(** * The predefined variants, the front end and the keys *)

Section InitFacts.
Context `{T : Types} `{P : Parser} `{B : Builtins}.

Lemma add_is_Some s v (m : gmap string Variant) k :
  is_Some (add s v m !! k) <-> is_Some (m !! k) \/ k = s.
Proof.
  rewrite add_lookup. destruct (m !! k) as [r|].
  - split; [intros _; left; eauto|intros _; eauto].
  - destruct (decide (k = s)) as [->|Hne].
    + split; [intros _; right; reflexivity|intros _; eauto].
    + split; [intros [? [=]]|intros [[? [=]]|]; contradiction].
Qed.

Lemma add_present s v (m : gmap string Variant) :
  is_Some (m !! s) -> add s v m = m.
Proof. intros [r Hr]. unfold add, map_insert. rewrite Hr. reflexivity. Qed.

Lemma add_keeps s v (m : gmap string Variant) k r :
  m !! k = Some r -> add s v m !! k = Some r.
Proof. intros H. rewrite add_lookup, H. reflexivity. Qed.

(** X3. [init] registers the predefined variants without touching what
    is registered: every entry found stays as it is, the names
    registered afterwards are those found and the predefined ones
    ([flipello10] only with [LARGEBOARDS]), a second call changes
    nothing, and the invariant that every registered ruleset is
    concluded is kept. *)
Theorem init_registers_builtins (m : gmap string Variant) :
  (forall k r, m !! k = Some r -> init m !! k = Some r)
  /\ (forall k, is_Some (init m !! k) <-> is_Some (m !! k) \/ k ∈ builtin_names)
  /\ init (init m) = init m
  /\ (all_concluded m -> all_concluded (init m)).
Proof.
  assert (Hdom : forall m' k,
            is_Some (init m' !! k) <-> is_Some (m' !! k) \/ k ∈ builtin_names).
  { intros m' k. unfold init, builtin_names.
    destruct LARGEBOARDS; rewrite ?add_is_Some, !elem_of_app, !elem_of_cons,
      elem_of_nil; tauto. }
  split; [|split; [apply Hdom|split]].
  - intros k r H. unfold init.
    destruct LARGEBOARDS; repeat apply add_keeps; exact H.
  - assert (Hin : forall k, k ∈ builtin_names -> is_Some (init m !! k))
      by (intros k Hk; apply Hdom; right; exact Hk).
    generalize dependent (init m). intros m1 Hin.
    unfold builtin_names in Hin. unfold init at 1.
    rewrite (add_present "chess") by (apply Hin; rewrite elem_of_app, !elem_of_cons; tauto).
    rewrite (add_present "normal") by (apply Hin; rewrite elem_of_app, !elem_of_cons; tauto).
    rewrite (add_present "fairy") by (apply Hin; rewrite elem_of_app, !elem_of_cons; tauto).
    rewrite (add_present "ataxx") by (apply Hin; rewrite elem_of_app, !elem_of_cons; tauto).
    rewrite (add_present "flipersi") by (apply Hin; rewrite elem_of_app, !elem_of_cons; tauto).
    rewrite (add_present "flipello") by (apply Hin; rewrite elem_of_app, !elem_of_cons; tauto).
    destruct LARGEBOARDS; [|reflexivity].
    apply add_present, Hin. rewrite elem_of_app, !elem_of_cons. tauto.
  - intros Hm. unfold init.
    destruct LARGEBOARDS; repeat apply add_all_concluded; exact Hm.
Qed.

End InitFacts.

Section FrontEndFacts.
Context `{T : Types} `{P : Parser} `{F : Files}.

Lemma parse_istream_registry DoCheck input (registry : gmap string Variant) printed :
  exists registry' printed',
    parse_istream DoCheck input registry printed = Some (registry', printed')
    /\ (DoCheck = true -> registry' = registry)
    /\ (DoCheck = false -> registry ⊆ registry').
Proof.
  destruct (parse_istream_total DoCheck input registry printed) as [[m p] Hp].
  exists m, p. split; [exact Hp|].
  unfold parse_istream in Hp.
  destruct (skip_loop _ _) as [f|]; [|discriminate].
  destruct (sections_loop DoCheck _ _) as [st|] eqn:Hl; [|discriminate].
  injection Hp as <- <-. split; intros ->.
  - assert (Hi : only_added registry st).
    { eapply sections_loop_only_added; [|exact Hl].
      split; cbn [variants varsToErase]; [reflexivity|].
      intros k Hk. apply elem_of_nil in Hk. contradiction. }
    destruct Hi as [H1 H2]. apply map_eq. intros k. rewrite erase_all_lookup.
    destruct (decide (k ∈ varsToErase st)) as [Hin|Hout].
    + symmetry. apply H2, Hin.
    + apply H1, Hout.
  - destruct (sections_loop_normal _ _ _ Hl) as [He Hn].
    cbn [varsToErase] in He. rewrite He. cbn [erase_all foldl].
    exact (Hn 0%nat _ eq_refl).
Qed.

(** X4. The file front end. For the empty path and for the path
    ["<empty>"] nothing happens, and the file system is not consulted.
    When the file cannot be opened the registry is left alone and one
    line is printed. In strict mode the call returns with the registry
    it found for every path and every file; in normal mode it returns
    with a registry that extends the one it found. *)
Theorem parse_front_end (path : string) (registry : gmap string Variant)
    (printed : list string) :
  (forall DoCheck, path = ""%string \/ path = "<empty>"%string ->
     parse DoCheck path registry printed = Some (registry, printed))
  /\ (forall DoCheck, path <> ""%string -> path <> "<empty>"%string ->
        ifstream_open path = None ->
        parse DoCheck path registry printed
        = Some (registry, printed ++ [String.append "Unable to open file " path]))
  /\ (exists printed', parse true path registry printed = Some (registry, printed'))
  /\ (exists registry' printed',
        parse false path registry printed = Some (registry', printed')
        /\ registry ⊆ registry').
Proof.
  assert (Hguard : is_empty path || String.eqb path "<empty>" = false ->
                   path <> ""%string /\ path <> "<empty>"%string).
  { intros H. apply orb_false_iff in H. destruct H as [H1 H2].
    apply String.eqb_neq in H2. split; [intros ->; discriminate|exact H2]. }
  split; [|split; [|split]].
  - intros DoCheck [->| ->]; reflexivity.
  - intros DoCheck H1 H2 Ho. unfold parse.
    destruct path as [|c path']; [congruence|]. cbn [is_empty orb].
    apply String.eqb_neq in H2. rewrite H2, Ho. reflexivity.
  - unfold parse. destruct (is_empty path || String.eqb path "<empty>");
      [eauto|].
    destruct (ifstream_open path) as [text|]; [|eauto].
    destruct (parse_istream_registry true text registry printed)
      as (m & p & Hp & Hs & _).
    exists p. rewrite Hp, (Hs eq_refl). reflexivity.
  - unfold parse. destruct (is_empty path || String.eqb path "<empty>");
      [exists registry, printed; split; [reflexivity|reflexivity]|].
    destruct (ifstream_open path) as [text|];
      [|eexists _, _; split; reflexivity].
    destruct (parse_istream_registry false text registry printed)
      as (m & p & Hp & _ & Hs).
    exists m, p. split; [exact Hp|apply Hs; reflexivity].
Qed.

End FrontEndFacts.

(** * The keys of the registry *)

#[global] Instance string_le_total : Total string_le.
Proof. intros a b. apply String.leb_total. Qed.

Lemma Sorted_strict (l : list string) :
  Sorted string_le l -> NoDup l -> Sorted (fun a b => String.ltb a b = true) l.
Proof.
  induction 1 as [|a l Hs IH Hr]; intros Hnd; [constructor|].
  apply NoDup_cons in Hnd. destruct Hnd as [Ha Hnd].
  constructor; [apply IH, Hnd|].
  destruct Hr as [|b l' Hab]; constructor.
  assert (Hne : a <> b) by (intros ->; apply Ha; left).
  unfold string_le, String.leb in Hab. unfold String.ltb.
  destruct (String.compare a b) eqn:Hc; [|reflexivity|discriminate].
  apply String.compare_eq_iff in Hc. contradiction.
Qed.

(** X5. [get_keys] returns the registered names, each of them once, in
    strictly increasing order; their number is the size of the
    registry, and after [clear_all] there is none. *)
Theorem get_keys_sorted_names (m : gmap string Variant) :
  (forall k, k ∈ get_keys m <-> is_Some (m !! k))
  /\ Sorted (fun a b => String.ltb a b = true) (get_keys m)
  /\ NoDup (get_keys m)
  /\ length (get_keys m) = size m
  /\ get_keys (clear_all m) = [].
Proof.
  assert (Hp : get_keys m ≡ₚ (map_to_list m).*1) by apply merge_sort_Permutation.
  assert (Hnd : NoDup (get_keys m)).
  { rewrite Hp. apply NoDup_fst_map_to_list. }
  split; [|split; [|split; [exact Hnd|split]]].
  - intros k. rewrite Hp, list_elem_of_fmap. split.
    + intros ([k' r] & -> & Hin). apply elem_of_map_to_list in Hin. eauto.
    + intros [r Hr]. exists (k, r). split; [reflexivity|].
      apply elem_of_map_to_list, Hr.
  - apply Sorted_strict; [apply Sorted_merge_sort; apply _|exact Hnd].
  - rewrite Hp, length_fmap. apply length_map_to_list.
  - reflexivity.
Qed.

(** * Lines and headers *)

Lemma extract_line_before d s :
  fst (fst (extract_line d s)) = before_char (fun c => Ascii.eqb c d) s.
Proof.
  induction s as [|c s IH]; [reflexivity|]. cbn [extract_line before_char].
  destruct (Ascii.eqb c d); [reflexivity|].
  destruct (extract_line d s) as [[l r] f]. cbn [fst] in *. rewrite IH. reflexivity.
Qed.

Lemma contains_false s c : contains s c = false <-> find_char c s = None.
Proof. unfold contains. destruct (find_char c s); split; congruence. Qed.

Lemma contains_cons a s c :
  contains (String a s) c = Ascii.eqb a c || contains s c.
Proof.
  unfold contains. cbn [find_char]. destruct (Ascii.eqb a c); [reflexivity|].
  destruct (find_char c s); reflexivity.
Qed.

Lemma extract_line_found d a b :
  contains a d = false -> extract_line d (a +:+ String d b) = (a, b, true).
Proof.
  induction a as [|c a IH]; intros Hc.
  - rewrite append_nil_l. cbn [extract_line]. rewrite Ascii.eqb_refl. reflexivity.
  - rewrite append_cons. rewrite contains_cons in Hc.
    apply orb_false_iff in Hc. destruct Hc as [Hc Ha].
    cbn [extract_line]. rewrite Hc, IH by exact Ha. reflexivity.
Qed.

Lemma extract_line_absent d a :
  contains a d = false -> extract_line d a = (a, EmptyString, false).
Proof.
  induction a as [|c a IH]; intros Hc; [reflexivity|].
  rewrite contains_cons in Hc. apply orb_false_iff in Hc. destruct Hc as [Hc Ha].
  cbn [extract_line]. rewrite Hc, IH by exact Ha. reflexivity.
Qed.

Lemma contains_before_char stop s c :
  contains s c = false -> contains (before_char stop s) c = false.
Proof.
  induction s as [|a s IH]; [reflexivity|]. rewrite contains_cons.
  intros H. apply orb_false_iff in H. destruct H as [Ha Hs].
  cbn [before_char]. destruct (stop a); [reflexivity|].
  rewrite contains_cons, Ha, IH by exact Hs. reflexivity.
Qed.

Lemma contains_before_stop d s :
  contains (before_char (fun c => Ascii.eqb c d) s) d = false.
Proof.
  induction s as [|a s IH]; [reflexivity|].
  cbn [before_char]. destruct (Ascii.eqb a d) eqn:E; [reflexivity|].
  rewrite contains_cons, E, IH. reflexivity.
Qed.

Lemma getline_open_found d a b :
  contains a d = false ->
  getline (open_stream (a +:+ String d b)) d = (a, open_stream b).
Proof.
  intros H. unfold getline, open_stream. cbn [good eofbit failbit negb andb buf].
  rewrite extract_line_found by exact H. reflexivity.
Qed.

Lemma getline_open_absent d a :
  contains a d = false ->
  getline (open_stream a) d
  = (a, {| buf := EmptyString; eofbit := true; failbit := is_empty a |}).
Proof.
  intros H. unfold getline, open_stream. cbn [good eofbit failbit negb andb buf].
  rewrite extract_line_absent by exact H. reflexivity.
Qed.

Section HeaderFacts.
Context `{T : Types} `{P : Parser}.

(** X6. A header without a colon names a variant without a template;
    in a header [name:rest] the name is the text before the first colon
    and the template is the text after it, up to the end of its first
    line. A header that ends in a colon names no template. *)
Theorem parse_header_split (name rest : string) :
  contains name ":" = false ->
  parse_header name = (name, EmptyString)
  /\ parse_header (name +:+ String ":" rest) = (name, before_char is_newline rest).
Proof.
  intros Hn. unfold parse_header. split.
  - rewrite getline_open_absent by exact Hn.
    unfold getline. cbn [good eofbit failbit negb andb set_fail].
    destruct (is_empty name); reflexivity.
  - rewrite getline_open_found by exact Hn.
    unfold getline, open_stream. cbn [good eofbit failbit negb andb buf].
    pose proof (extract_line_before "010" rest) as Hb.
    pose proof (extract_line_length "010" rest) as Hl.
    destruct (extract_line "010" rest) as [[l r] f]. cbn [fst] in Hb.
    fold is_newline in Hb. rewrite <- Hb.
    destruct f; cbn [failbit]; [reflexivity|].
    destruct l; reflexivity.
Qed.

End HeaderFacts.

(** * Lines of a section *)

Lemma contains_app a b c : contains (a +:+ b) c = contains a c || contains b c.
Proof.
  induction a as [|x a IH]; [reflexivity|].
  rewrite append_cons, !contains_cons, IH. apply orb_assoc.
Qed.

Lemma contains_spaces n c : Ascii.eqb " " c = false -> contains (spaces n) c = false.
Proof.
  intros Hc. induction n as [|n IH]; [reflexivity|].
  cbn [spaces]. rewrite contains_cons, Hc, IH. reflexivity.
Qed.

Lemma back_app a b : b <> EmptyString -> back (a +:+ b) = back b.
Proof.
  intros Hb. induction a as [|x a IH]; [reflexivity|].
  rewrite append_cons. cbn [back].
  destruct (a +:+ b) eqn:E; [|exact IH].
  destruct a; [rewrite append_nil_l in E; contradiction|discriminate].
Qed.

Lemma front_app a b : a <> EmptyString -> front (a +:+ b) = front a.
Proof. intros Ha. destruct a; [congruence|reflexivity]. Qed.

Lemma append_assoc3 a b c : a +:+ b +:+ c = (a +:+ b) +:+ c.
Proof.
  induction a as [|x a IH]; [reflexivity|].
  rewrite !append_cons, IH. reflexivity.
Qed.

Lemma is_empty_app a b : is_empty (a +:+ b) = is_empty a && is_empty b.
Proof. destruct a; reflexivity. Qed.

Lemma is_empty_false s : is_empty s = false <-> s <> EmptyString.
Proof.
  destruct s; cbn [is_empty]; split; intros H;
    try reflexivity; try discriminate; try (exfalso; apply H; reflexivity).
Qed.

Lemma skip_ws_spaces n v :
  v <> EmptyString -> isspace (front v) = false -> skip_ws (spaces n +:+ v) = v.
Proof.
  intros Hv Hf. induction n as [|n IH].
  - rewrite append_nil_l. destruct v as [|c v]; [congruence|].
    cbn [skip_ws front] in *. rewrite Hf. reflexivity.
  - cbn [spaces]. rewrite append_cons. cbn [skip_ws]. exact IH.
Qed.

Lemma skip_ws_only_spaces n : skip_ws (spaces n) = EmptyString.
Proof. induction n as [|n IH]; [reflexivity|]. exact IH. Qed.

Lemma find_last_not_of_spaces n : find_last_not_of " " (spaces n) = None.
Proof. induction n as [|n IH]; [reflexivity|]. cbn [spaces find_last_not_of]. rewrite IH. reflexivity. Qed.

Lemma find_last_not_of_padded key n :
  key <> EmptyString -> back key <> " "%char ->
  find_last_not_of " " (key +:+ spaces n) = Some (Nat.pred (String.length key)).
Proof.
  induction key as [|c r IH]; [congruence|]. intros _ Hb.
  rewrite append_cons. cbn [find_last_not_of String.length Nat.pred].
  destruct r as [|d r'].
  - rewrite append_nil_l, find_last_not_of_spaces. cbn [back] in Hb.
    destruct (Ascii.eqb_spec c " "); [contradiction|reflexivity].
  - rewrite IH; [reflexivity|discriminate|exact Hb].
Qed.

Lemma substr0_app a b : substr0 (a +:+ b) (Some (String.length a)) = a.
Proof.
  induction a as [|c a IH]; [destruct b; reflexivity|].
  rewrite append_cons. cbn [String.length substr0]. rewrite IH. reflexivity.
Qed.

Lemma pop_back_front c d r : front (pop_back (String c (String d r))) = c.
Proof. reflexivity. Qed.

Lemma peek_open s :
  s <> EmptyString -> peek (open_stream s) = (Some (front s), open_stream s).
Proof. destruct s; [congruence|reflexivity]. Qed.

Section LineFacts.
Context `{T : Types} `{P : Parser}.

(** The line as it is read after a trailing carriage return is dropped. *)
Lemma parse_line_keeps input :
  input <> EmptyString -> back input <> "013"%char ->
  (if negb (is_empty input) && Ascii.eqb (back input) "013"
   then pop_back input else input) = input.
Proof.
  intros _ Hb. destruct (Ascii.eqb_spec (back input) "013"); [contradiction|].
  rewrite andb_false_r. reflexivity.
Qed.

(** X7. A line [key = value] stores [value] under [key] in both modes
    and prints nothing: the spaces between the key and [=] are dropped
    from the key, the spaces after [=] are skipped, and the value is
    taken as it stands. An entry stored earlier under the same key is
    replaced. *)
Theorem parse_line_assignment (DoCheck : bool) (key value : string) (n m : nat)
    (attribs : gmap string string) (printed : list string) :
  key <> EmptyString -> contains key "=" = false ->
  front key <> ";"%char -> front key <> "#"%char -> back key <> " "%char ->
  value <> EmptyString -> isspace (front value) = false ->
  contains value "010" = false -> back value <> "013"%char ->
  parse_line DoCheck (key +:+ spaces n +:+ String "=" (spaces m +:+ value))
    attribs printed
  = (<[key := value]> attribs, printed).
Proof.
  intros Hk Hke Hsemi Hhash Hkb Hv Hvs Hvn Hvr.
  set (input := key +:+ spaces n +:+ String "=" (spaces m +:+ value)).
  assert (Hin : input <> EmptyString) by (destruct key; [congruence|discriminate]).
  assert (Hback : back input = back value).
  { unfold input. rewrite back_app by (destruct (spaces n); discriminate).
    rewrite back_app by discriminate.
    change (String "=" (spaces m +:+ value))
      with (String "=" (spaces m) +:+ value).
    apply back_app, Hv. }
  unfold parse_line. rewrite parse_line_keeps by (rewrite ?Hback; assumption).
  fold input. rewrite peek_open by exact Hin.
  assert (Hfront : front input = front key) by (apply front_app, Hk).
  rewrite Hfront. cbn [differs].
  destruct (Ascii.eqb_spec (front key) ";"); [contradiction|]. cbn [negb].
  rewrite peek_open by exact Hin. rewrite Hfront. cbn [differs].
  destruct (Ascii.eqb_spec (front key) "#"); [contradiction|]. cbn [negb].
  assert (Hc : contains input "=" = true).
  { unfold input. rewrite !contains_app, contains_cons, Ascii.eqb_refl.
    rewrite !orb_true_r. reflexivity. }
  rewrite Hc, andb_false_r.
  assert (Hpre : contains (key +:+ spaces n) "=" = false).
  { rewrite contains_app, Hke, contains_spaces; reflexivity. }
  unfold input. rewrite append_assoc3.
  rewrite getline_open_found by exact Hpre.
  unfold ws, open_stream. cbn [good eofbit failbit negb andb buf].
  rewrite skip_ws_spaces by assumption.
  apply is_empty_false in Hv. rewrite Hv.
  change {| buf := value; eofbit := false; failbit := false |}
    with (open_stream value).
  rewrite getline_open_absent by exact Hvn. cbn [failbit]. rewrite Hv.
  rewrite is_empty_app. apply is_empty_false in Hk. rewrite Hk. cbn [negb andb].
  apply is_empty_false in Hk.
  rewrite find_last_not_of_padded by assumption.
  replace (S (Nat.pred (String.length key))) with (String.length key)
    by (destruct key; [congruence|reflexivity]).
  rewrite substr0_app. reflexivity.
Qed.

End LineFacts.

Lemma back_spaces n c : back (String c (spaces n)) = match n with O => c | _ => " "%char end.
Proof.
  revert c. induction n as [|n IH]; intros c; [reflexivity|].
  cbn [spaces]. change (back (String c (String " " (spaces n))))
    with (back (String " " (spaces n))).
  rewrite IH. destruct n; reflexivity.
Qed.

Lemma dropped_return_front c rest :
  c <> "013"%char ->
  exists rest',
    (if negb (is_empty (String c rest)) && Ascii.eqb (back (String c rest)) "013"
     then pop_back (String c rest) else String c rest) = String c rest'.
Proof.
  intros Hc. destruct (negb _ && _) eqn:E; [|eauto].
  destruct rest as [|d r]; [|eexists; reflexivity].
  cbn in E. destruct (Ascii.eqb_spec c "013"); [contradiction|discriminate].
Qed.

Section IgnoredLines.
Context `{T : Types} `{P : Parser}.

(** X8. The lines that store nothing. A line that starts with [;] or
    [#], an empty line and a lone carriage return are passed over in
    silence in both modes. A line without [=] stores nothing and is
    reported in strict mode only. A line [key=] whose value is empty or
    blank stores nothing and is reported in neither mode. *)
Theorem parse_line_ignored (DoCheck : bool) (attribs : gmap string string)
    (printed : list string) :
  (forall rest,
     parse_line DoCheck (String ";" rest) attribs printed = (attribs, printed)
     /\ parse_line DoCheck (String "#" rest) attribs printed = (attribs, printed))
  /\ parse_line DoCheck "" attribs printed = (attribs, printed)
  /\ parse_line DoCheck (String "013" "") attribs printed = (attribs, printed)
  /\ (forall input,
        input <> EmptyString -> contains input "=" = false ->
        front input <> ";"%char -> front input <> "#"%char ->
        back input <> "013"%char ->
        parse_line DoCheck input attribs printed
        = (attribs,
           if DoCheck
           then printed ++ [String.append "Invalid syntax: '" (String.append input "'.")]
           else printed))
  /\ (forall key m,
        key <> EmptyString -> contains key "=" = false ->
        front key <> ";"%char -> front key <> "#"%char ->
        parse_line DoCheck (key +:+ String "=" (spaces m)) attribs printed
        = (attribs, printed)).
Proof.
  split; [|split; [destruct DoCheck; reflexivity|split; [destruct DoCheck; reflexivity|split]]].
  - intros rest. split; unfold parse_line.
    + destruct (dropped_return_front ";" rest) as [r ->]; [discriminate|]. reflexivity.
    + destruct (dropped_return_front "#" rest) as [r ->]; [discriminate|]. reflexivity.
  - intros input Hin Hc Hsemi Hhash Hb. unfold parse_line.
    rewrite parse_line_keeps by assumption.
    rewrite peek_open by exact Hin. cbn [differs].
    destruct (Ascii.eqb_spec (front input) ";"); [contradiction|]. cbn [negb].
    rewrite peek_open by exact Hin. cbn [differs].
    destruct (Ascii.eqb_spec (front input) "#"); [contradiction|]. cbn [negb].
    rewrite Hc. rewrite getline_open_absent by exact Hc.
    apply is_empty_false in Hin. rewrite Hin. cbn [negb andb].
    unfold ws, getline. cbn [good eofbit failbit negb andb set_fail].
    rewrite andb_true_r. destruct DoCheck; reflexivity.
  - intros key m Hk Hke Hsemi Hhash.
    set (input := key +:+ String "=" (spaces m)).
    assert (Hin : input <> EmptyString) by (destruct key; [congruence|discriminate]).
    assert (Hb : back input <> "013"%char).
    { unfold input. rewrite back_app by discriminate. rewrite back_spaces.
      destruct m; discriminate. }
    unfold parse_line. rewrite parse_line_keeps by assumption.
    assert (Hfront : front input = front key) by (apply front_app, Hk).
    rewrite peek_open by exact Hin. rewrite Hfront. cbn [differs].
    destruct (Ascii.eqb_spec (front key) ";"); [contradiction|]. cbn [negb].
    rewrite peek_open by exact Hin. rewrite Hfront. cbn [differs].
    destruct (Ascii.eqb_spec (front key) "#"); [contradiction|]. cbn [negb].
    assert (Hc : contains input "=" = true).
    { unfold input. rewrite contains_app, contains_cons, Ascii.eqb_refl.
      rewrite orb_true_r. reflexivity. }
    rewrite Hc, andb_false_r. unfold input.
    rewrite getline_open_found by exact Hke.
    unfold ws, open_stream. cbn [good eofbit failbit negb andb buf].
    rewrite skip_ws_only_spaces. cbn [is_empty].
    unfold getline. cbn [good eofbit failbit negb andb set_fail]. reflexivity.
Qed.

End IgnoredLines.

(** * Well-formed files *)

Lemma append_assoc a b c : (a +:+ b) +:+ c = a +:+ (b +:+ c).
Proof. symmetry. apply append_assoc3. Qed.

Lemma append_String a c b : (a +:+ String c b) = (a +:+ String c "") +:+ b.
Proof. rewrite append_assoc, append_cons, append_nil_l. reflexivity. Qed.

Lemma length_append a b :
  String.length (a +:+ b) = (String.length a + String.length b)%nat.
Proof.
  induction a as [|c a IH]; [rewrite append_nil_l; reflexivity|].
  rewrite append_cons. cbn [String.length]. rewrite IH. reflexivity.
Qed.

Lemma length_unlines ls : (length ls <= String.length (unlines ls))%nat.
Proof.
  induction ls as [|l ls IH]; [cbn; lia|].
  cbn [unlines foldr length]. fold (unlines ls).
  rewrite length_append. cbn [String.length]. lia.
Qed.

Lemma unlines_cons l ls rest :
  unlines (l :: ls) +:+ rest = l +:+ String "010" (unlines ls +:+ rest).
Proof.
  cbn [unlines foldr]. fold (unlines ls).
  rewrite append_assoc, append_cons. reflexivity.
Qed.

Lemma section_text_app header junk ls rest :
  section_text (header, junk, ls) +:+ rest
  = String "[" (header +:+ String "]" (junk +:+ String "010" (unlines ls +:+ rest))).
Proof.
  unfold section_text. rewrite append_cons, append_assoc, append_cons.
  rewrite append_assoc, append_cons. reflexivity.
Qed.

Lemma length_sections_text ss : (length ss <= String.length (sections_text ss))%nat.
Proof.
  induction ss as [|[[h j] ls] ss IH]; [cbn; lia|].
  cbn [sections_text foldr length]. fold (sections_text ss).
  rewrite section_text_app.
  repeat (rewrite length_append || cbn [String.length]). lia.
Qed.

Lemma at_header_sections ss tail :
  at_header tail -> at_header (sections_text ss +:+ tail).
Proof.
  intros Ht. destruct ss as [|[[h j] ls] ss].
  - cbn [sections_text foldr]. rewrite append_nil_l. exact Ht.
  - right. cbn [sections_text foldr]. fold (sections_text ss).
    rewrite append_assoc, section_text_app. eauto.
Qed.

Lemma dropped_tail_at_header t : dropped_tail t = true -> at_header t.
Proof.
  destruct t as [|c h]; [left; reflexivity|]. cbn [dropped_tail].
  intros H. apply andb_true_iff in H. destruct H as [H _].
  apply Ascii.eqb_eq in H. subst c. right. eauto.
Qed.

Lemma body_line_peek l rest :
  body_line l = true ->
  peek (open_stream (l +:+ String "010" rest))
  = (Some (front (l +:+ String "010" rest)), open_stream (l +:+ String "010" rest))
  /\ differs (Some (front (l +:+ String "010" rest))) "[" = true
  /\ getline (open_stream (l +:+ String "010" rest)) "010" = (l, open_stream rest).
Proof.
  unfold body_line. intros H. apply andb_true_iff in H. destruct H as [Hn Hf].
  apply negb_true_iff in Hn, Hf. split; [|split].
  - apply peek_open. destruct l; [rewrite append_nil_l|rewrite append_cons]; discriminate.
  - cbn [differs]. destruct l as [|c l].
    + rewrite append_nil_l. reflexivity.
    + rewrite append_cons. cbn [front] in *. rewrite Hf. reflexivity.
  - apply getline_open_found, Hn.
Qed.

(** The stream at the end of a loop over lines: the header that follows
    has been seen, or the last read has failed. *)
Lemma peek_after_stop rest :
  at_header rest ->
  let '(c, f) := peek (open_stream rest) in
  if differs c "[" then
    let '(_, f) := getline f "010" in
    negb (failbit f) = false /\ f = after rest
  else f = after rest.
Proof.
  intros [->|[r ->]]; cbn; auto.
Qed.

Section WellFormed.
Context `{T : Types} `{P : Parser}.

Lemma skip_loop_lines rest : forall pre fuel,
  (length pre < fuel)%nat -> forallb body_line pre = true -> at_header rest ->
  skip_loop fuel (open_stream (unlines pre +:+ rest)) = Some (after rest).
Proof.
  induction pre as [|l pre IH]; intros fuel Hfuel Hpre Hrest.
  - destruct fuel as [|fuel]; [cbn in Hfuel; lia|].
    cbn [unlines foldr]. rewrite append_nil_l. cbn [skip_loop].
    pose proof (peek_after_stop rest Hrest) as Hs.
    destruct (peek (open_stream rest)) as [c f].
    destruct (differs c "[").
    + destruct (getline f "010") as [x f']. destruct Hs as [-> ->]. reflexivity.
    + rewrite Hs. reflexivity.
  - destruct fuel as [|fuel]; [cbn in Hfuel; lia|].
    cbn [forallb] in Hpre. apply andb_true_iff in Hpre. destruct Hpre as [Hl Hpre].
    rewrite unlines_cons. cbn [skip_loop].
    destruct (body_line_peek l (unlines pre +:+ rest) Hl) as (-> & -> & ->).
    cbn [open_stream failbit negb]. apply IH; [cbn in Hfuel; lia|exact Hpre|exact Hrest].
Qed.

Lemma attribs_loop_lines DoCheck rest : forall ls fuel attribs printed,
  (length ls < fuel)%nat -> forallb body_line ls = true -> at_header rest ->
  attribs_loop DoCheck fuel (open_stream (unlines ls +:+ rest)) attribs printed
  = Some (after rest,
          (foldl (fun ap l => parse_line DoCheck l ap.1 ap.2) (attribs, printed) ls).1,
          (foldl (fun ap l => parse_line DoCheck l ap.1 ap.2) (attribs, printed) ls).2).
Proof.
  induction ls as [|l ls IH]; intros fuel attribs printed Hfuel Hls Hrest.
  - destruct fuel as [|fuel]; [cbn in Hfuel; lia|].
    cbn [unlines foldr foldl fst snd]. rewrite append_nil_l. cbn [attribs_loop].
    pose proof (peek_after_stop rest Hrest) as Hs.
    destruct (peek (open_stream rest)) as [c f].
    destruct (differs c "[").
    + destruct (getline f "010") as [x f']. destruct Hs as [-> ->]. reflexivity.
    + rewrite Hs. reflexivity.
  - destruct fuel as [|fuel]; [cbn in Hfuel; lia|].
    cbn [forallb] in Hls. apply andb_true_iff in Hls. destruct Hls as [Hl Hls].
    rewrite unlines_cons. cbn [attribs_loop].
    destruct (body_line_peek l (unlines ls +:+ rest) Hl) as (-> & -> & ->).
    cbn [open_stream failbit negb foldl fst snd].
    change {| buf := ?b; eofbit := false; failbit := false |} with (open_stream b).
    destruct (parse_line DoCheck l attribs printed) as [a p].
    apply IH; [cbn in Hfuel; lia|exact Hls|exact Hrest].
Qed.

Lemma create_variant_with_file DoCheck name template attribs st f :
  create_variant DoCheck name template attribs (with_file st f)
  = with_file (create_variant DoCheck name template attribs st) f.
Proof.
  unfold create_variant, with_file. cbn [variants cerr varsToErase file].
  destruct (variants st !! name); [reflexivity|].
  destruct (if negb (is_empty template)
            then match variants st !! template with
                 | Some t => Some (Some t)
                 | None => None
                 end
            else Some None) as [tpl|]; [|reflexivity].
  destruct (match tpl with
            | Some t => VariantParser_parse DoCheck attribs (Variant_init t)
            | None => VariantParser_parse_default DoCheck attribs
            end) as [v out].
  destruct ((maxFile v <=? FILE_MAX) && (maxRank v <=? RANK_MAX)); reflexivity.
Qed.

Lemma section_iter_section DoCheck s rest registry printed erase :
  well_formed s = true -> at_header rest ->
  section_iter DoCheck
    {| file := open_stream (section_text s +:+ rest); variants := registry;
       cerr := printed; varsToErase := erase |}
  = Some (Continue
            {| file := after rest;
               variants := (read_section DoCheck (registry, printed, erase) s).1.1;
               cerr := (read_section DoCheck (registry, printed, erase) s).1.2;
               varsToErase := (read_section DoCheck (registry, printed, erase) s).2 |}).
Proof.
  destruct s as [[header junk] ls]. cbn [well_formed]. intros Hw Hrest.
  apply andb_true_iff in Hw. destruct Hw as [Hw Hls].
  apply andb_true_iff in Hw. destruct Hw as [Hh Hj].
  apply negb_true_iff in Hh, Hj.
  rewrite section_text_app. unfold section_iter.
  cbn [file variants cerr varsToErase open_stream get good eofbit failbit negb andb
       buf truthy Ascii.eqb].
  change (truthy (Some "["%char)) with true. cbv beta iota.
  change {| buf := ?b; eofbit := false; failbit := false |} with (open_stream b).
  rewrite getline_open_found by exact Hh.
  rewrite getline_open_found by exact Hj.
  cbn [open_stream failbit negb buf].
  change {| buf := ?b; eofbit := false; failbit := false |} with (open_stream b).
  unfold read_section.
  destruct (parse_header header) as [variant variant_template].
  rewrite attribs_loop_lines; [|pose proof (length_unlines ls); rewrite length_append; lia
                               |exact Hls|exact Hrest].
  destruct (foldl (fun ap l => parse_line DoCheck l ap.1 ap.2) (∅, printed) ls)
    as [attribs printed1].
  cbn [fst snd].
  change {| file := after rest; variants := registry; cerr := printed1;
            varsToErase := erase |}
    with (with_file {| file := open_stream EmptyString; variants := registry;
                       cerr := printed1; varsToErase := erase |} (after rest)).
  rewrite create_variant_with_file. reflexivity.
Qed.

Lemma extract_line_last d h n :
  find_char d h = Some n -> S n = String.length h ->
  exists l, extract_line d h = (l, EmptyString, true).
Proof.
  revert n. induction h as [|c h IH]; intros n Hf Hn; [discriminate|].
  cbn [find_char] in Hf. cbn [extract_line]. destruct (Ascii.eqb c d).
  - injection Hf as <-. cbn in Hn. destruct h; [eauto|discriminate].
  - destruct (find_char d h) as [k|] eqn:E; [|discriminate].
    injection Hf as <-. cbn in Hn.
    destruct (IH k eq_refl) as [l ->]; [lia|]. eauto.
Qed.

Lemma section_iter_tail DoCheck tail registry printed erase :
  dropped_tail tail = true ->
  exists f,
    section_iter DoCheck
      {| file := after tail; variants := registry; cerr := printed;
         varsToErase := erase |}
    = Some (Break {| file := f; variants := registry; cerr := printed;
                     varsToErase := erase |}).
Proof.
  destruct tail as [|c h]; cbn [dropped_tail]; intros Ht.
  - eexists. reflexivity.
  - apply andb_true_iff in Ht. destruct Ht as [Hc Ht].
    apply Ascii.eqb_eq in Hc. subst c.
    unfold section_iter, after.
    cbn [is_empty file variants cerr varsToErase open_stream get good eofbit failbit
         negb andb buf].
    change (truthy (Some "["%char)) with true. cbv beta iota.
    unfold getline at 1. cbn [good eofbit failbit negb andb buf].
    destruct (find_char "]" h) as [n|] eqn:E.
    + apply Nat.eqb_eq in Ht. destruct (extract_line_last _ _ _ E Ht) as [l ->].
      cbn. eexists. reflexivity.
    + rewrite extract_line_absent by (apply contains_false, E).
      cbn. eexists. reflexivity.
Qed.

Lemma sections_loop_sections DoCheck tail : forall ss fuel registry printed erase,
  (length ss < fuel)%nat -> forallb well_formed ss = true -> dropped_tail tail = true ->
  exists f,
    sections_loop DoCheck fuel
      {| file := after (sections_text ss +:+ tail); variants := registry;
         cerr := printed; varsToErase := erase |}
    = Some {| file := f;
              variants := (foldl (read_section DoCheck) (registry, printed, erase) ss).1.1;
              cerr := (foldl (read_section DoCheck) (registry, printed, erase) ss).1.2;
              varsToErase := (foldl (read_section DoCheck) (registry, printed, erase) ss).2 |}.
Proof.
  induction ss as [|s ss IH]; intros fuel registry printed erase Hfuel Hss Ht.
  - destruct fuel as [|fuel]; [cbn in Hfuel; lia|].
    cbn [sections_text foldr foldl fst snd]. rewrite append_nil_l.
    cbn [sections_loop].
    destruct (section_iter_tail DoCheck tail registry printed erase Ht) as [f ->].
    eauto.
  - destruct fuel as [|fuel]; [cbn in Hfuel; lia|].
    cbn [forallb] in Hss. apply andb_true_iff in Hss. destruct Hss as [Hs Hss].
    cbn [sections_text foldr foldl]. fold (sections_text ss).
    rewrite append_assoc.
    assert (Hrest : at_header (sections_text ss +:+ tail))
      by (apply at_header_sections, dropped_tail_at_header, Ht).
    replace (after (section_text s +:+ (sections_text ss +:+ tail)))
      with (open_stream (section_text s +:+ (sections_text ss +:+ tail)))
      by (destruct s as [[h j] ls]; rewrite section_text_app; reflexivity).
    cbn [sections_loop].
    rewrite (section_iter_section DoCheck s _ registry printed erase Hs Hrest).
    destruct (read_section DoCheck (registry, printed, erase) s) as [[r p] e].
    cbn [fst snd]. apply IH; [cbn in Hfuel; lia|exact Hss|exact Ht].
Qed.

(** X9. The meaning of a well-formed file. Such a file is a run of
    lines that do not start with an opening bracket, then sections (a
    bracketed header without a closing bracket inside, the rest of the
    header line, and lines that do not start with an opening bracket),
    then possibly a last header that is not followed by a line feed.
    Reading it folds the sections from left to right over the registry,
    the printed lines and the list of transient names, each section
    reading its header, folding its lines into a fresh table of
    attributes and creating its variant; the transient names are erased
    at the end. The lines before the first header, the text that follows
    a header on its line and an unfinished last header change
    nothing. *)
Theorem parse_istream_well_formed (DoCheck : bool) (preamble : list string)
    (sections : list ini_section) (tail : string)
    (registry : gmap string Variant) (printed : list string) :
  forallb body_line preamble = true ->
  forallb well_formed sections = true ->
  dropped_tail tail = true ->
  parse_istream DoCheck (unlines preamble +:+ sections_text sections +:+ tail)
    registry printed
  = Some (erase_all
            (foldl (read_section DoCheck) (registry, printed, []) sections).2
            (foldl (read_section DoCheck) (registry, printed, []) sections).1.1,
          (foldl (read_section DoCheck) (registry, printed, []) sections).1.2).
Proof.
  intros Hpre Hss Ht. unfold parse_istream.
  assert (Hrest : at_header (sections_text sections +:+ tail))
    by (apply at_header_sections, dropped_tail_at_header, Ht).
  rewrite skip_loop_lines;
    [|pose proof (length_unlines preamble); rewrite length_append; lia
     |exact Hpre|exact Hrest].
  destruct (sections_loop_sections DoCheck tail sections
              (S (String.length (buf (after (sections_text sections +:+ tail)))))
              registry printed [])
    as [f ->]; [| exact Hss | exact Ht | reflexivity].
  pose proof (length_sections_text sections) as Hl.
  destruct Hrest as [He|[r He]]; rewrite He.
  - assert (String.length (sections_text sections +:+ tail) = 0%nat) as H0
      by (rewrite He; reflexivity).
    rewrite length_append in H0. cbn. lia.
  - cbn [after is_empty open_stream buf].
    rewrite <- He, length_append. lia.
Qed.

End WellFormed.

(** * The names a pass registers *)

Lemma getline_no_delim f d : contains (getline f d).1 d = false.
Proof.
  unfold getline. destruct (good f); [|reflexivity].
  pose proof (extract_line_before d (buf f)) as H.
  destruct (extract_line d (buf f)) as [[l r] found]. cbn [fst] in H.
  destruct found; cbn [fst]; rewrite H; apply contains_before_stop.
Qed.

Lemma getline_open_keeps s d c :
  contains s c = false -> contains (getline (open_stream s) d).1 c = false.
Proof.
  intros H. unfold getline, open_stream. cbn [good eofbit failbit negb andb buf].
  pose proof (extract_line_before d s) as Hb.
  destruct (extract_line d s) as [[l r] found]. cbn [fst] in Hb.
  destruct found; cbn [fst]; rewrite Hb; apply contains_before_char, H.
Qed.

Section Names.
Context `{T : Types} `{P : Parser}.

Lemma parse_header_name header :
  (parse_header header).1 = (getline (open_stream header) ":").1.
Proof.
  unfold parse_header. destruct (getline (open_stream header) ":") as [name ss].
  destruct (getline ss "010") as [template ss']. destruct (failbit ss'); reflexivity.
Qed.

Lemma section_iter_names DoCheck st r :
  section_iter DoCheck st = Some r ->
  forall k, variants (flow_state r) !! k = variants st !! k \/ plain_name k.
Proof.
  unfold section_iter. destruct (get (file st)) as [c f0].
  destruct (truthy c); [|intros [= <-]; left; reflexivity].
  pose proof (getline_no_delim f0 "]") as Hb.
  destruct (getline f0 "]") as [name0 f1]. cbn [fst] in Hb.
  destruct (getline f1 "010") as [line f2].
  destruct (negb (failbit f2)); [|intros [= <-]; left; reflexivity].
  pose proof (parse_header_name name0) as Hn.
  destruct (parse_header name0) as [name template]. cbn [fst] in Hn.
  destruct (attribs_loop DoCheck _ f2 ∅ (cerr st)) as [[[f3 attribs] printed]|];
    [|discriminate].
  intros [= <-] k. cbn [flow_state].
  destruct (create_variant_cases DoCheck name template attribs
              {| file := f3; variants := variants st; cerr := printed;
                 varsToErase := varsToErase st |}) as [[H _]|(v & _ & H & _)];
    cbn [variants] in H; rewrite H; [left; reflexivity|].
  destruct (decide (name = k)) as [<-|Hne].
  - right. rewrite Hn. split; [apply getline_no_delim|].
    apply getline_open_keeps, Hb.
  - left. apply lookup_insert_ne, Hne.
Qed.

Lemma sections_loop_names DoCheck fuel : forall st st',
  sections_loop DoCheck fuel st = Some st' ->
  forall k, variants st' !! k = variants st !! k \/ plain_name k.
Proof.
  induction fuel as [|fuel IH]; intros st st'; [discriminate|].
  cbn [sections_loop]. destruct (section_iter DoCheck st) as [r|] eqn:Hr; [|discriminate].
  pose proof (section_iter_names _ _ _ Hr) as Hs.
  destruct r as [st1|st1]; cbn [flow_state] in Hs.
  - intros Hl k. destruct (IH _ _ Hl k) as [H1|H1]; [|right; exact H1].
    rewrite H1. apply Hs.
  - intros [= <-]. exact Hs.
Qed.

(** X10. The names a pass can register. Whatever the input, a pass in
    either mode returns, and an entry of the registry it leaves that
    differs from the entry found on entry stands under a name with no
    colon and no closing bracket in it. *)
Theorem registered_names_plain (DoCheck : bool) (input : string)
    (registry : gmap string Variant) (printed : list string) :
  exists registry' printed',
    parse_istream DoCheck input registry printed = Some (registry', printed')
    /\ forall k, registry' !! k = registry !! k \/ plain_name k.
Proof.
  destruct (parse_istream_registry DoCheck input registry printed)
    as (m & p & Hp & Hs & Hn).
  exists m, p. split; [exact Hp|]. intros k.
  destruct DoCheck; [left; rewrite (Hs eq_refl); reflexivity|].
  unfold parse_istream in Hp.
  destruct (skip_loop _ _) as [f|]; [|discriminate].
  destruct (sections_loop false _ _) as [st|] eqn:Hl; [|discriminate].
  injection Hp as <- <-.
  destruct (sections_loop_normal _ _ _ Hl) as [He _].
  cbn [varsToErase] in He. rewrite He. cbn [erase_all foldl].
  exact (sections_loop_names _ _ _ _ Hl k).
Qed.

End Names.

(** * The offset tables and the attack shortcuts *)

Lemma popcount_piece_set k : popcount (piece_set k) = 1.
Proof.
  assert (Hb : N.testbit (piece_set k) k = true).
  { unfold piece_set. rewrite N.shiftl_1_l. apply N.pow2_bits_true. }
  pose proof (popcount_clear _ _ Hb) as H.
  change (N.shiftl 1 k) with (piece_set k) in H.
  rewrite N.ldiff_diag in H. cbn in H. lia.
Qed.

Lemma testbit_positive ps k : N.testbit ps k = true -> 0 < popcount ps.
Proof.
  intros Hb. pose proof (popcount_nonneg ps).
  destruct (Z.eq_dec (popcount ps) 0) as [E|]; [|lia].
  apply popcount_zero in E. subst ps. rewrite N.bits_0 in Hb. discriminate.
Qed.

Lemma testbit_piece_set k n : N.testbit (piece_set k) n = (k =? n)%N.
Proof. unfold piece_set. rewrite N.shiftl_1_l. apply N.pow2_bits_eqb. Qed.

Lemma subset_ldiff ps allowed :
  N.ldiff ps allowed = 0%N <->
  forall pt, N.testbit ps pt = true -> N.testbit allowed pt = true.
Proof.
  split.
  - intros H pt Hb.
    assert (Hd : N.testbit (N.ldiff ps allowed) pt = false) by (rewrite H; apply N.bits_0).
    rewrite N.ldiff_spec, Hb in Hd. destruct (N.testbit allowed pt); [reflexivity|discriminate].
  - intros H. apply N.bits_inj_0. intros n. rewrite N.ldiff_spec.
    destruct (N.testbit ps n) eqn:E; [|reflexivity]. rewrite (H n E). reflexivity.
Qed.

Section OffsetFacts.
Context `{T : Types}.

(** The type picked in a round is in the set, and it is the NNUE king
    only when nothing else is left. *)
Lemma picked_not_king ps k :
  ps <> 0%N -> ps <> piece_set k ->
  lsb (N.ldiff ps (piece_set k)) <> k.
Proof.
  intros H0 Hne Hk.
  pose proof (testbit_lsb _ (ldiff_piece_nonzero ps k H0 Hne)) as Hb.
  rewrite Hk, N.ldiff_spec, testbit_piece_set, N.eqb_refl, andb_false_r in Hb.
  discriminate.
Qed.

Lemma index_loop_done k sq po nd fuel i t : index_loop k sq po nd fuel 0%N i t = t.
Proof. destruct fuel; reflexivity. Qed.

Lemma index_loop_king k sq po nd fuel : forall ps i t,
  N.testbit ps k = true -> popcount ps <= Z.of_nat fuel ->
  0 <= i -> i + popcount ps <= 2147483647 ->
  forall c c',
    sel (index_loop k sq po nd fuel ps i t).1 c !! make_piece c' k
    = Some (int (2 * (i + popcount ps - 1) * sq)).
Proof.
  induction fuel as [|fuel IH]; intros ps i t Hk Hp Hi Hb c c'.
  - pose proof (testbit_positive _ _ Hk). lia.
  - assert (H0 : ps <> 0%N) by (intros ->; rewrite N.bits_0 in Hk; discriminate).
    cbn [index_loop]. rewrite (proj2 (nonzero_true ps) H0).
    destruct (N.eqb_spec ps (piece_set k)) as [->|Hne]; cbn [negb].
    + rewrite lsb_piece_set, N.lxor_nilpotent, index_loop_done, popcount_piece_set.
      replace (i + 1 - 1) with i by lia.
      destruct t as [psi phi]. cbn [foldl index_body fst].
      rewrite N.eqb_refl, Z.add_0_r, !sel_store.
      destruct c, c'; cbn [flip];
        repeat (case_decide; try congruence);
        rewrite ?lookup_insert_eq; try reflexivity;
        destruct (decide (make_piece BLACK k = make_piece WHITE k)) as [E|E];
        rewrite ?E, ?lookup_insert_eq; try reflexivity;
        rewrite lookup_insert_ne by congruence; rewrite ?lookup_insert_eq; reflexivity.
    + set (pt := lsb (N.ldiff ps (piece_set k))).
      assert (Hpt : N.testbit ps pt = true).
      { pose proof (picked_in_set ps k H0) as H.
        destruct (N.eqb_spec ps (piece_set k)); [contradiction|exact H]. }
      assert (Hptk : pt <> k) by (apply picked_not_king; assumption).
      rewrite lxor_set_bit by exact Hpt.
      pose proof (popcount_clear _ _ Hpt) as Hc.
      pose proof (testbit_positive _ _ Hk) as Hpos.
      rewrite (int_small (i + 1)) by lia.
      rewrite IH; [f_equal; f_equal; lia| |lia|lia|lia].
      rewrite N.ldiff_spec, Hk. change (N.shiftl 1 pt) with (piece_set pt).
      rewrite testbit_piece_set. destruct (N.eqb_spec pt k); [contradiction|reflexivity].
Qed.

(** A piece that belongs to no type in play is not written. *)
Lemma index_loop_frame k sq po nd pc fuel : forall ps i t,
  (forall c pt, make_piece c pt = pc -> N.testbit ps pt = false) ->
  forall c,
    sel (index_loop k sq po nd fuel ps i t).1 c !! pc = sel t.1 c !! pc
    /\ sel (index_loop k sq po nd fuel ps i t).2 c !! pc = sel t.2 c !! pc.
Proof.
  induction fuel as [|fuel IH]; intros ps i t Hpc c; [split; reflexivity|].
  cbn [index_loop]. destruct (nonzero ps) eqn:Hnz; [|split; reflexivity].
  apply nonzero_true in Hnz.
  set (pt := lsb (if negb (ps =? piece_set k)%N
                  then N.ldiff ps (piece_set k) else ps)).
  assert (Hpt : N.testbit ps pt = true) by (apply picked_in_set; exact Hnz).
  assert (Hw : forall c0, make_piece c0 pt <> pc).
  { intros c0 E. rewrite (Hpc _ _ E) in Hpt. discriminate. }
  match goal with
  | |- context [index_loop k sq po nd fuel ?ps' ?i' ?t'] =>
      destruct (IH ps' i' t') with (c := c) as [H1 H2]
  end.
  { intros c0 pt0 E. rewrite N.lxor_spec, (Hpc _ _ E). cbn [xorb].
    rewrite testbit_piece_set. destruct (N.eqb_spec pt pt0) as [->|]; [|reflexivity].
    rewrite (Hpc _ _ E) in Hpt. discriminate. }
  rewrite H1, H2. destruct t as [psi phi]. cbn [foldl index_body fst snd].
  rewrite !sel_store.
  split; repeat case_decide; rewrite ?lookup_insert_ne by apply Hw; reflexivity.
Qed.

(** X11. The NNUE king gets the last index. When the type chosen as NNUE
    king is in play among at most 64 types, the derivation leaves, in
    the square-offset table of either colour and for the king of either
    colour, the offset of the last of the [n] types in play:
    [2 * (n - 1) * nnueSquares] as a 32-bit product. *)
Theorem nnueKing_last_index (v : Variant) :
  N.testbit (pieceTypes v) (nnueKing_of v) = true ->
  (pieceTypes v < 2 ^ 64)%N ->
  forall c c',
    sel (pieceSquareIndex (conclude v)) c !! make_piece c' (nnueKing_of v)
    = Some (int (2 * (bitset64_count (pieceTypes v) - 1) * nnueSquares_of v)).
Proof.
  intros Hk Hb c c'. cbn [conclude pieceSquareIndex].
  unfold index_tables_of, index_tables_from.
  pose proof (bitset64_count_bounds (pieceTypes v)) as Hc.
  unfold bitset64_count in *. rewrite N.mod_small in * by exact Hb.
  rewrite index_loop_king; [f_equal; f_equal; lia|exact Hk|apply popcount_fuel|lia|lia].
Qed.

(** X12. The offset tables are written only at the pieces of the types
    in play: the entry of any other piece, in either table and for
    either colour, is after the derivation what it was before it. *)
Theorem index_tables_frame (v : Variant) (pc : Piece) :
  (forall c pt, make_piece c pt = pc -> N.testbit (pieceTypes v) pt = false) ->
  forall c,
    sel (pieceSquareIndex (conclude v)) c !! pc = sel (pieceSquareIndex v) c !! pc
    /\ sel (pieceHandIndex (conclude v)) c !! pc = sel (pieceHandIndex v) c !! pc.
Proof.
  intros Hpc c. cbn [conclude pieceSquareIndex pieceHandIndex].
  unfold index_tables_of, index_tables_from.
  apply (index_loop_frame _ _ _ _ pc _ _ _ (pieceSquareIndex v, pieceHandIndex v) Hpc c).
Qed.

(** X13. The two attack shortcuts. After the derivation [fastAttacks]
    holds exactly when every type in play is a chess piece or a common
    fairy piece and has no mobility region for either colour, the king
    type is [KING], and neither Cambodian moves nor diagonal lines are
    in use; [fastAttacks2] is the same with the Shogi pieces and the
    common step pieces. *)
Theorem fastAttacks_conditions (v : Variant) :
  (fastAttacks (conclude v) = true <->
   (forall pt, N.testbit (pieceTypes v) pt = true ->
      N.testbit (N.lor CHESS_PIECES COMMON_FAIRY_PIECES) pt = true
      /\ mobilityRegion v WHITE pt = 0%N /\ mobilityRegion v BLACK pt = 0%N)
   /\ kingType v = KING /\ cambodianMoves v = false /\ diagonalLines v = false)
  /\ (fastAttacks2 (conclude v) = true <->
      (forall pt, N.testbit (pieceTypes v) pt = true ->
         N.testbit (N.lor SHOGI_PIECES COMMON_STEP_PIECES) pt = true
         /\ mobilityRegion v WHITE pt = 0%N /\ mobilityRegion v BLACK pt = 0%N)
      /\ kingType v = KING /\ cambodianMoves v = false /\ diagonalLines v = false).
Proof.
  assert (Hr : restrictedMobility v = false <->
               forall pt, N.testbit (pieceTypes v) pt = true ->
                 mobilityRegion v WHITE pt = 0%N /\ mobilityRegion v BLACK pt = 0%N).
  { pose proof (restrictedMobility_spec v) as Hs.
    destruct (restrictedMobility v).
    - split; [discriminate|]. intros H.
      destruct (proj1 Hs eq_refl) as (pt & Hb & Hm).
      destruct (H pt Hb) as [H1 H2]. tauto.
    - split; [|reflexivity]. intros _ pt Hb.
      destruct (N.eq_dec (mobilityRegion v WHITE pt) 0%N) as [E1|E1];
        [|assert (false = true) by (apply Hs; eauto); discriminate].
      destruct (N.eq_dec (mobilityRegion v BLACK pt) 0%N) as [E2|E2];
        [|assert (false = true) by (apply Hs; eauto); discriminate].
      tauto. }
  assert (Hgen : forall allowed,
    negb (nonzero (N.ldiff (pieceTypes v) allowed))
    && (kingType v =? KING)%N && negb (restrictedMobility v)
    && negb (cambodianMoves v) && negb (diagonalLines v) = true <->
    (forall pt, N.testbit (pieceTypes v) pt = true ->
       N.testbit allowed pt = true
       /\ mobilityRegion v WHITE pt = 0%N /\ mobilityRegion v BLACK pt = 0%N)
    /\ kingType v = KING /\ cambodianMoves v = false /\ diagonalLines v = false).
  { intros allowed.
    rewrite !andb_true_iff, !negb_true_iff, nonzero_false, N.eqb_eq, Hr, subset_ldiff.
    split.
    - intros ((((Ha & Hk) & Hm) & Hc) & Hd). repeat split; try assumption.
      + apply Ha; assumption.
      + apply Hm; assumption.
      + apply Hm; assumption.
    - intros (H & Hk & Hc & Hd). repeat split; try assumption.
      + intros pt Hb. apply H, Hb.
      + apply H; assumption.
      + apply H; assumption. }
  split; apply Hgen.
Qed.

End OffsetFacts.

(** * Concrete inputs for the further properties *)

Lemma all_concluded_empty `{T : Types} : all_concluded ∅.
Proof. intros k r H. rewrite lookup_empty in H. discriminate. Qed.

(** X1, witness: the chess ruleset added to the empty registry. *)
Lemma add_keeps_concluded_witness :
  all_concluded (T := sample_types) (add (T := sample_types) "chess" chess ∅)
  /\ exists r, add (T := sample_types) "chess" chess ∅ !! "chess"%string = Some r
               /\ concluded (T := sample_types) r
               /\ ((∅ : gmap string Variant) !! "chess"%string = None
                   -> r = conclude (T := sample_types) chess).
Proof.
  apply (add_keeps_concluded (T := sample_types) "chess" chess ∅).
  apply all_concluded_empty.
Defined.

(** X2, witness: a one-section file read into the empty registry. *)
Lemma parse_istream_keeps_concluded_witness :
  exists registry' printed',
    parse_istream (T := sample_types) (P := sample_parser) false
      (String "[" (String "a" (String "]" (String "010" "")))) ∅ []
    = Some (registry', printed')
    /\ all_concluded (T := sample_types) registry'.
Proof.
  apply (parse_istream_keeps_concluded (T := sample_types) (P := sample_parser)).
  apply all_concluded_empty.
Defined.

(** X6, witness: the headers [b] and [b:a]. *)
Lemma parse_header_split_witness :
  parse_header "b" = ("b", "")%string
  /\ parse_header ("b" +:+ String ":" "a") = ("b"%string, before_char is_newline "a").
Proof. apply (parse_header_split "b" "a"). reflexivity. Defined.

(** X7, witness: the line [maxRank = 5] replaces an earlier value. *)
Lemma parse_line_assignment_witness :
  parse_line true ("maxRank" +:+ spaces 1 +:+ String "=" (spaces 1 +:+ "5"))
    {["maxRank"%string := "9"%string]} []
  = (<["maxRank"%string := "5"%string]> {["maxRank"%string := "9"%string]}, []).
Proof.
  apply (parse_line_assignment true "maxRank" "5" 1 1);
    first [reflexivity | discriminate | (intros H; vm_compute in H; discriminate)].
Defined.

(** X9, witness: a comment, a section with two lines, a section that
    takes the first as its template and has text after its header, and
    an unfinished header. In normal mode the first two sections are
    registered and nothing is printed. *)
Lemma parse_istream_well_formed_witness :
  option_map (fun r => (get_keys r.1, r.2))
    (parse_istream (T := sample_types) (P := sample_parser) false
       (unlines ["# sample"%string]
        +:+ sections_text [("a", "", ["maxFile = h"; "; note"]);
                           ("b:a", " ; as a", [])]%string
        +:+ "[c]")
       ∅ [])
  = Some (["a"; "b"]%string, []).
Proof.
  rewrite (parse_istream_well_formed (T := sample_types) (P := sample_parser) false
             ["# sample"%string]
             [("a", "", ["maxFile = h"; "; note"]); ("b:a", " ; as a", [])]%string
             "[c]" ∅ []) by reflexivity.
  vm_compute. reflexivity.
Defined.

(** X11, witness: chess has six types in play and 64 squares, so the
    king's offset is [2 * 5 * 64]. *)
Lemma nnueKing_last_index_witness :
  sel (pieceSquareIndex (conclude (T := sample_types) chess)) WHITE
    !! make_piece (Types := sample_types) BLACK (nnueKing_of (T := sample_types) chess)
  = Some (int (2 * (bitset64_count (pieceTypes chess) - 1)
               * nnueSquares_of chess))
  /\ int (2 * (bitset64_count (pieceTypes chess) - 1) * nnueSquares_of chess) = 640.
Proof.
  split; [|vm_compute; reflexivity].
  apply (nnueKing_last_index (T := sample_types) chess); vm_compute; reflexivity.
Defined.

(** X12, witness: piece 6 belongs to no type of chess. *)
Lemma index_tables_frame_witness :
  sel (pieceSquareIndex (conclude (T := sample_types) chess)) WHITE !! 6%N
  = sel (pieceSquareIndex chess) WHITE !! 6%N
  /\ sel (pieceHandIndex (conclude (T := sample_types) chess)) WHITE !! 6%N
     = sel (pieceHandIndex chess) WHITE !! 6%N.
Proof.
  apply (index_tables_frame (T := sample_types) chess 6%N).
  intros c pt H. destruct c.
  - change (0 + pt = 6)%N in H. rewrite N.add_0_l in H. subst pt. reflexivity.
  - change (64 + pt = 6)%N in H. exfalso. lia.
Defined.
